(** * Nuclide: the blame gutter and the diagnostics provider base

    A shallow embedding of [pkg/nuclide/blame-ui/lib/BlameGutter.js] and of
    the [DiagnosticsProviderBase] class, with the host objects they drive
    (editor markers and decorations, the gutter, notifications, the text
    event dispatcher, the event-kit emitter) kept as explicit state, so that
    what the classes do to the host can be stated and proved. *)

From Stdlib Require Import ZArith Ascii String DecimalString Lia.
From stdpp Require Import base tactics option list strings gmap.

(** ** JavaScript values used by both classes *)

Module JS.

(** [s.length]: strings are sequences of code units, one [ascii] each. *)
Definition strlen (s : string) : Z := Z.of_nat (String.length s).

(** [if (v) yes else no] on a [?string]: [null], [undefined] and ['']
    are falsy; in the truthy branch [v] is a non-empty string. *)
Definition if_truthy {A : Type} (v : option string) (yes : string → A) (no : A) : A :=
  match v with
  | Some (String c r) => yes (String c r)
  | _ => no
  end.

Definition truthy (v : option string) : bool := if_truthy v (λ _, true) false.

(** [s.repeat(count)]: a negative count is a RangeError ([None]). *)
Definition repeat (s : string) (count : Z) : option string :=
  if decide (count < 0)%Z then None
  else Some (Nat.iter (Z.to_nat count) (String.append s) EmptyString).

(** The decimal rendering of an integer inside a template literal. *)
Definition number_to_string (n : Z) : string :=
  NilZero.string_of_int (Z.to_int n).

(** The no-break space, U+00A0. *)
Definition nbsp : string := String (ascii_of_nat 160) EmptyString.

End JS.

(** ** [Map<number, V>]: entries in insertion order, one per key *)

Module JSMap.
Section WithValue.
Context {V : Type}.

Definition t := list (nat * V).

Fixpoint get (k : nat) (m : list (nat * V)) : option V :=
  match m with
  | [] => None
  | (k', v) :: m' => if decide (k = k') then Some v else get k m'
  end.

(** [set] overwrites the value of a present key where it stands and
    appends an absent one. *)
Fixpoint set (k : nat) (v : V) (m : list (nat * V)) : list (nat * V) :=
  match m with
  | [] => [(k, v)]
  | (k', v') :: m' =>
      if decide (k = k') then (k, v) :: m' else (k', v') :: set k v m'
  end.

Definition delete (k : nat) (m : list (nat * V)) : list (nat * V) :=
  filter (λ kv, kv.1 ≠ k) m.

Definition keys (m : list (nat * V)) : list nat := m.*1.
Definition values (m : list (nat * V)) : list V := m.*2.
Definition size (m : list (nat * V)) : nat := length m.

End WithValue.
End JSMap.

(** [Set<number>], as [new Set(iterable)] builds it and [delete] shrinks it. *)
Module JSSet.
Definition t := list nat.
Definition of_iterable (l : list nat) : list nat := remove_dups l.
Definition delete (k : nat) (s : list nat) : list nat := filter (λ x, x ≠ k) s.
End JSSet.

(** ** BlameGutter.js *)

Module BlameGutter.

Definition BLAME_GUTTER_DEFAULT_WIDTH : Z := 50.
Definition LOADING_SPINNER_ID : string := "blame-loading-spinner".
Definition MS_TO_WAIT_BEFORE_SPINNER : Z := 2000.
Definition CHANGESET_CSS_CLASS : string := "nuclide-blame-ui-hash".
Definition CLICKABLE_CHANGESET_CSS_CLASS : string := "nuclide-blame-ui-hash-clickable".
Definition HG_CHANGESET_DATA_ATTRIBUTE : string := "hgChangeset".

(** *** Data *)

(** [BlameInfo] and [BlameForEditor = Map<number, BlameInfo>]. *)
Record BlameInfo := { author : string; changeset : option string }.
Definition BlameForEditor := list (nat * BlameInfo).

(** The DOM built for one gutter item: the children of its [div]. *)
Record Span := {
  innerText : string;
  className : option string;
  dataset : list (string * string)
}.
Inductive Node :=
| SpanElement (s : Span)
| TextNode (data : string).

Fixpoint dataset_get (key : string) (d : list (string * string)) : option string :=
  match d with
  | [] => None
  | (k, v) :: d' => if decide (key = k) then Some v else dataset_get key d'
  end.

Record MouseEvent := { target : option Span }.

Record DecorationProperties := {
  dp_type : string;
  dp_gutterName : string;
  dp_class : string;
  dp_item : list Node
}.

(** The editor's markers and decorations are objects of the host: a handle
    is an index into the editor's store, and [destroy()] calls are counted. *)
Record Marker := { marker_line : nat; marker_destroy_calls : nat }.
Record Decoration := {
  decoration_marker : nat;
  decoration_properties : DecorationProperties
}.

Record Editor := {
  editor_isDestroyed : bool;
  editor_path : option string;
  markers : list Marker;
  decorations : list Decoration
}.

(** The gutter and its view element. *)
Record Gutter := {
  gutter_name : string;
  gutter_destroy_calls : nat;
  gutter_style_width : option string;
  gutter_children : list string;
  gutter_click_listener : bool
}.

Inductive Notification :=
| Info (message : string)
| Warning (message : string) (dismissable : bool).

Record TrackEvent := {
  track_name : string;
  track_editorPath : option string;
  track_url : option string
}.

(** What else of the host the class touches: [atom.notifications],
    [shell.openExternal], [track] and the window's pending timeouts. *)
Record Env := {
  notifications : list Notification;
  opened_external : list string;
  tracked : list TrackEvent;
  timeouts : list nat;
  next_timeout : nat
}.

(** The instance's own fields. *)
Record Fields := {
  _isDestroyed : bool;
  _changesetSpanClassName : string;
  _bufferLineToDecoration : list (nat * nat);
  _loadingSpinnerIsPending : bool;
  _loadingSpinnerDiv : option string;
  _loadingSpinnerTimeoutId : option nat
}.

(** An instance with the objects [this._editor] and [this._gutter] refer
    to, and the environment. *)
Record State := {
  this : Fields;
  _editor : Editor;
  _gutter : Gutter;
  env : Env
}.

Definition with_this (f : Fields → Fields) (s : State) : State :=
  {| this := f (this s); _editor := _editor s; _gutter := _gutter s; env := env s |}.
Definition with_editor (f : Editor → Editor) (s : State) : State :=
  {| this := this s; _editor := f (_editor s); _gutter := _gutter s; env := env s |}.
Definition with_gutter (f : Gutter → Gutter) (s : State) : State :=
  {| this := this s; _editor := _editor s; _gutter := f (_gutter s); env := env s |}.
Definition with_env (f : Env → Env) (s : State) : State :=
  {| this := this s; _editor := _editor s; _gutter := _gutter s; env := f (env s) |}.

(** *** Host operations *)

Definition set_style_width (w : string) (g : Gutter) : Gutter :=
  {| gutter_name := gutter_name g;
     gutter_destroy_calls := gutter_destroy_calls g;
     gutter_style_width := Some w;
     gutter_children := gutter_children g;
     gutter_click_listener := gutter_click_listener g |}.

Definition set_children (c : list string) (g : Gutter) : Gutter :=
  {| gutter_name := gutter_name g;
     gutter_destroy_calls := gutter_destroy_calls g;
     gutter_style_width := gutter_style_width g;
     gutter_children := c;
     gutter_click_listener := gutter_click_listener g |}.

(** [gutter.destroy()]: the call is counted, and the [onDidDestroy]
    handler installed by the constructor removes the click listener. *)
Definition Gutter_destroy (g : Gutter) : Gutter :=
  {| gutter_name := gutter_name g;
     gutter_destroy_calls := S (gutter_destroy_calls g);
     gutter_style_width := gutter_style_width g;
     gutter_children := gutter_children g;
     gutter_click_listener := false |}.

Definition Marker_destroy (m : Marker) : Marker :=
  {| marker_line := marker_line m;
     marker_destroy_calls := S (marker_destroy_calls m) |}.

Definition set_markers (ms : list Marker) (e : Editor) : Editor :=
  {| editor_isDestroyed := editor_isDestroyed e;
     editor_path := editor_path e;
     markers := ms;
     decorations := decorations e |}.

Definition set_decorations (ds : list Decoration) (e : Editor) : Editor :=
  {| editor_isDestroyed := editor_isDestroyed e;
     editor_path := editor_path e;
     markers := markers e;
     decorations := ds |}.

(** [editor.markBufferRange([[line, 0], [line, 0]])]: a new marker. *)
Definition markBufferRange (line : nat) (e : Editor) : nat * Editor :=
  (length (markers e),
   set_markers (markers e ++ [{| marker_line := line; marker_destroy_calls := 0 |}]) e).

(** [editor.decorateMarker(marker, properties)]: a new decoration. *)
Definition decorateMarker (marker : nat) (p : DecorationProperties) (e : Editor)
  : nat * Editor :=
  (length (decorations e),
   set_decorations
     (decorations e ++ [{| decoration_marker := marker; decoration_properties := p |}]) e).

(** [decoration.setProperties(properties)] *)
Definition setProperties (decoration : nat) (p : DecorationProperties) (e : Editor)
  : Editor :=
  set_decorations
    (alter (λ d, {| decoration_marker := decoration_marker d;
                    decoration_properties := p |}) decoration (decorations e)) e.

(** [decoration.getMarker().destroy()] *)
Definition destroy_marker_of (decoration : nat) (e : Editor) : Editor :=
  match decorations e !! decoration with
  | Some d => set_markers (alter Marker_destroy (decoration_marker d) (markers e)) e
  | None => e
  end.

Definition push_notification (n : Notification) (v : Env) : Env :=
  {| notifications := notifications v ++ [n];
     opened_external := opened_external v;
     tracked := tracked v;
     timeouts := timeouts v;
     next_timeout := next_timeout v |}.

Definition openExternal (url : string) (v : Env) : Env :=
  {| notifications := notifications v;
     opened_external := opened_external v ++ [url];
     tracked := tracked v;
     timeouts := timeouts v;
     next_timeout := next_timeout v |}.

(** Modelled from the spec: [track] of [nuclide-analytics], which is not
    among the sources, records a named event with its payload, never blocks
    and never fails. *)
Definition track (name : string) (path url : option string) (v : Env) : Env :=
  {| notifications := notifications v;
     opened_external := opened_external v;
     tracked := tracked v ++
       [{| track_name := name; track_editorPath := path; track_url := url |}];
     timeouts := timeouts v;
     next_timeout := next_timeout v |}.

(** [window.setTimeout]: the id of the new pending timeout. *)
Definition setTimeout (v : Env) : nat * Env :=
  (next_timeout v,
   {| notifications := notifications v;
      opened_external := opened_external v;
      tracked := tracked v;
      timeouts := timeouts v ++ [next_timeout v];
      next_timeout := S (next_timeout v) |}).

Definition clearTimeout (id : option nat) (v : Env) : Env :=
  {| notifications := notifications v;
     opened_external := opened_external v;
     tracked := tracked v;
     timeouts := filter (λ t, Some t ≠ id) (timeouts v);
     next_timeout := next_timeout v |}.

(** *** The class *)

Record BlameProvider := { has_getUrlForRevision : bool }.

Definition NO_BLAME_MESSAGE : string :=
  "Found no blame to display. Is this file empty or untracked?
          If not, check for errors in the Nuclide logs local to your repo.".

Definition set_isDestroyed (b : bool) (t : Fields) : Fields :=
  {| _isDestroyed := b;
     _changesetSpanClassName := _changesetSpanClassName t;
     _bufferLineToDecoration := _bufferLineToDecoration t;
     _loadingSpinnerIsPending := _loadingSpinnerIsPending t;
     _loadingSpinnerDiv := _loadingSpinnerDiv t;
     _loadingSpinnerTimeoutId := _loadingSpinnerTimeoutId t |}.

Definition set_changesetSpanClassName (c : string) (t : Fields) : Fields :=
  {| _isDestroyed := _isDestroyed t;
     _changesetSpanClassName := c;
     _bufferLineToDecoration := _bufferLineToDecoration t;
     _loadingSpinnerIsPending := _loadingSpinnerIsPending t;
     _loadingSpinnerDiv := _loadingSpinnerDiv t;
     _loadingSpinnerTimeoutId := _loadingSpinnerTimeoutId t |}.

Definition set_bufferLineToDecoration (m : list (nat * nat)) (t : Fields) : Fields :=
  {| _isDestroyed := _isDestroyed t;
     _changesetSpanClassName := _changesetSpanClassName t;
     _bufferLineToDecoration := m;
     _loadingSpinnerIsPending := _loadingSpinnerIsPending t;
     _loadingSpinnerDiv := _loadingSpinnerDiv t;
     _loadingSpinnerTimeoutId := _loadingSpinnerTimeoutId t |}.

Definition set_loadingSpinnerIsPending (b : bool) (t : Fields) : Fields :=
  {| _isDestroyed := _isDestroyed t;
     _changesetSpanClassName := _changesetSpanClassName t;
     _bufferLineToDecoration := _bufferLineToDecoration t;
     _loadingSpinnerIsPending := b;
     _loadingSpinnerDiv := _loadingSpinnerDiv t;
     _loadingSpinnerTimeoutId := _loadingSpinnerTimeoutId t |}.

Definition set_loadingSpinnerDiv (d : option string) (t : Fields) : Fields :=
  {| _isDestroyed := _isDestroyed t;
     _changesetSpanClassName := _changesetSpanClassName t;
     _bufferLineToDecoration := _bufferLineToDecoration t;
     _loadingSpinnerIsPending := _loadingSpinnerIsPending t;
     _loadingSpinnerDiv := d;
     _loadingSpinnerTimeoutId := _loadingSpinnerTimeoutId t |}.

Definition set_loadingSpinnerTimeoutId (id : option nat) (t : Fields) : Fields :=
  {| _isDestroyed := _isDestroyed t;
     _changesetSpanClassName := _changesetSpanClassName t;
     _bufferLineToDecoration := _bufferLineToDecoration t;
     _loadingSpinnerIsPending := _loadingSpinnerIsPending t;
     _loadingSpinnerDiv := _loadingSpinnerDiv t;
     _loadingSpinnerTimeoutId := id |}.

Section Methods.

(** [BLAME_DECORATION_CLASS] comes from [./constants]. *)
Variable BLAME_DECORATION_CLASS : string.

Definition _updateGutterWidthToPixelWidth (pixelWidth : Z) (s : State) : State :=
  with_gutter (set_style_width (JS.number_to_string pixelWidth +:+ "px")) s.

Definition _updateGutterWidthToCharacterLength (characters : Z) (s : State) : State :=
  with_gutter (set_style_width (JS.number_to_string characters +:+ "ch")) s.

(** The function scheduled by [_addLoadingSpinner]. *)
Definition loadingSpinnerTimeout (s : State) : State :=
  let s := with_this (set_loadingSpinnerIsPending false) s in
  let s := with_this (set_loadingSpinnerDiv (Some LOADING_SPINNER_ID)) s in
  with_gutter (λ g, set_children (gutter_children g ++ [LOADING_SPINNER_ID]) g) s.

Definition _addLoadingSpinner (s : State) : State :=
  if _loadingSpinnerIsPending (this s) then s
  else
    let s := with_this (set_loadingSpinnerIsPending true) s in
    let '(id, v) := setTimeout (env s) in
    with_this (set_loadingSpinnerTimeoutId (Some id)) (with_env (λ _, v) s).

Definition _cleanUpLoadingSpinner (s : State) : State :=
  let s :=
    if _loadingSpinnerIsPending (this s) then
      let s := with_env (clearTimeout (_loadingSpinnerTimeoutId (this s))) s in
      with_this (set_loadingSpinnerIsPending false) s
    else s in
  match _loadingSpinnerDiv (this s) with
  | Some div =>
      let s := with_gutter
                 (λ g, set_children (filter (λ c, c ≠ div) (gutter_children g)) g) s in
      with_this (set_loadingSpinnerDiv None) s
  | None => s
  end.

Definition _createGutterItem (blameInfo : BlameInfo) (longestBlame : Z) (s : State)
  : option (list Node) :=
  let authorSpan :=
    {| innerText := author blameInfo; className := None; dataset := [] |} in
  JS.if_truthy (changeset blameInfo)
    (λ changeset,
       let numSpaces :=
         (longestBlame - JS.strlen (author blameInfo) - JS.strlen changeset)%Z in
       spaces ← JS.repeat JS.nbsp numSpaces;
       let changesetSpan :=
         {| innerText := changeset;
            className := Some (_changesetSpanClassName (this s));
            dataset := [(HG_CHANGESET_DATA_ATTRIBUTE, changeset)] |} in
       Some [SpanElement authorSpan; TextNode spaces; SpanElement changesetSpan])
    (Some [SpanElement authorSpan]).

Definition _setBlameLine (bufferLine : nat) (blameInfo : BlameInfo)
    (longestBlame : Z) (s : State) : option State :=
  item ← _createGutterItem blameInfo longestBlame s;
  let decorationProperties :=
    {| dp_type := "gutter";
       dp_gutterName := gutter_name (_gutter s);
       dp_class := BLAME_DECORATION_CLASS;
       dp_item := item |} in
  match JSMap.get bufferLine (_bufferLineToDecoration (this s)) with
  | None =>
      let '(marker, e) := markBufferRange bufferLine (_editor s) in
      let '(decoration, e) := decorateMarker marker decorationProperties e in
      Some (with_this
              (λ t, set_bufferLineToDecoration
                      (JSMap.set bufferLine decoration (_bufferLineToDecoration t)) t)
              (with_editor (λ _, e) s))
  | Some decoration =>
      Some (with_editor (setProperties decoration decorationProperties) s)
  end.

Definition _removeBlameLine (bufferLine : nat) (s : State) : State :=
  match JSMap.get bufferLine (_bufferLineToDecoration (this s)) with
  | None => s
  | Some blameDecoration =>
      let s := with_editor (destroy_marker_of blameDecoration) s in
      with_this
        (λ t, set_bufferLineToDecoration
                (JSMap.delete bufferLine (_bufferLineToDecoration t)) t) s
  end.

(** The length computed for one entry in the first loop of [_updateBlame]. *)
Definition blameLength (blameInfo : BlameInfo) : Z :=
  let blameLength := JS.strlen (author blameInfo) in
  JS.if_truthy (changeset blameInfo)
    (λ changeset, (blameLength + (JS.strlen changeset + 1))%Z)
    blameLength.

(** The first loop of [_updateBlame]. *)
Definition longestBlame_of (blameForEditor : BlameForEditor) : Z :=
  foldl (λ longestBlame blameInfo,
           let blameLength := blameLength blameInfo in
           if decide (blameLength > longestBlame)%Z then blameLength else longestBlame)
        0%Z (JSMap.values blameForEditor).

(** The second loop of [_updateBlame]. *)
Fixpoint setBlameLines (longestBlame : Z) (entries : BlameForEditor)
    (allPreviousBlamedLines : list nat) (s : State) : option (list nat * State) :=
  match entries with
  | [] => Some (allPreviousBlamedLines, s)
  | (bufferLine, blameInfo) :: entries =>
      s ← _setBlameLine bufferLine blameInfo longestBlame s;
      setBlameLines longestBlame entries
        (JSSet.delete bufferLine allPreviousBlamedLines) s
  end.

(** [_updateBlame]; the [trackTiming] decorator only times the call. *)
Definition _updateBlame (blameForEditor : BlameForEditor) (s : State) : option State :=
  let s :=
    if decide (JSMap.size blameForEditor = 0) then
      with_env (push_notification (Info NO_BLAME_MESSAGE)) s
    else s in
  let allPreviousBlamedLines :=
    JSSet.of_iterable (JSMap.keys (_bufferLineToDecoration (this s))) in
  let longestBlame := longestBlame_of blameForEditor in
  '(allPreviousBlamedLines, s) ←
    setBlameLines longestBlame blameForEditor allPreviousBlamedLines s;
  let s := foldl (λ s oldLine, _removeBlameLine oldLine s) s allPreviousBlamedLines in
  Some (_updateGutterWidthToCharacterLength longestBlame s).

(** [_fetchAndDisplayBlame] up to its [await], and from the moment
    [getBlameForEditor] resolves with [newBlame]. *)
Definition _fetchAndDisplayBlame (s : State) : State := _addLoadingSpinner s.

Definition _fetchAndDisplayBlame_resume (newBlame : BlameForEditor) (s : State)
  : option State :=
  if _isDestroyed (this s) then Some s
  else _updateBlame newBlame (_cleanUpLoadingSpinner s).

Definition destroy (s : State) : State :=
  let s := with_this (set_isDestroyed true) s in
  let s := _cleanUpLoadingSpinner s in
  let s := if editor_isDestroyed (_editor s) then s
           else with_gutter Gutter_destroy s in
  foldl (λ s decoration, with_editor (destroy_marker_of decoration) s) s
        (JSMap.values (_bufferLineToDecoration (this s))).

(** [_onClick] up to its [await]: it returns, or waits for
    [getUrlForRevision(editor, changeset)]. *)
Inductive Clicked :=
| Returned
| AwaitUrlForRevision (changeset : string).

Definition _onClick (e : MouseEvent) : Clicked :=
  match target e with
  | None => Returned
  | Some target =>
      JS.if_truthy (dataset_get HG_CHANGESET_DATA_ATTRIBUTE (dataset target))
        AwaitUrlForRevision Returned
  end.

Definition _onClick_resume (changeset : string) (url : option string) (s : State)
  : State :=
  let s :=
    JS.if_truthy url
      (λ url, with_env (openExternal url) s)
      (with_env (push_notification
                   (Warning ("No URL found for " +:+ changeset +:+ ".") true)) s) in
  with_env (track "blame-gutter-click-revision" (editor_path (_editor s)) url) s.

Definition constructor (gutterName : string) (editor : Editor)
    (blameProvider : BlameProvider) (v : Env) : State :=
  let s :=
    {| this := {| _isDestroyed := false;
                  _changesetSpanClassName := CHANGESET_CSS_CLASS;
                  _bufferLineToDecoration := [];
                  _loadingSpinnerIsPending := false;
                  _loadingSpinnerDiv := None;
                  _loadingSpinnerTimeoutId := None |};
       _editor := editor;
       _gutter := {| gutter_name := gutterName;
                     gutter_destroy_calls := 0;
                     gutter_style_width := None;
                     gutter_children := [];
                     gutter_click_listener := false |};
       env := v |} in
  let s := _updateGutterWidthToPixelWidth BLAME_GUTTER_DEFAULT_WIDTH s in
  let s :=
    if has_getUrlForRevision blameProvider then
      let s := with_this
                 (λ t, set_changesetSpanClassName
                         (_changesetSpanClassName t +:+ " " +:+
                          CLICKABLE_CHANGESET_CSS_CLASS) t) s in
      with_gutter
        (λ g, {| gutter_name := gutter_name g;
                 gutter_destroy_calls := gutter_destroy_calls g;
                 gutter_style_width := gutter_style_width g;
                 gutter_children := gutter_children g;
                 gutter_click_listener := true |}) s
    else s in
  _fetchAndDisplayBlame s.

(** What can happen to an instance between two of its own steps. *)
Inductive Event :=
| Click (e : MouseEvent) (url : option string)
| TimeoutFires (id : nat)
| DestroyCalled.

Definition handle (ev : Event) (s : State) : State :=
  match ev with
  | Click e url =>
      if gutter_click_listener (_gutter s) then
        match _onClick e with
        | Returned => s
        | AwaitUrlForRevision changeset => _onClick_resume changeset url s
        end
      else s
  | TimeoutFires id =>
      if decide (id ∈ timeouts (env s)) then
        loadingSpinnerTimeout (with_env (clearTimeout (Some id)) s)
      else s
  | DestroyCalled => destroy s
  end.

End Methods.

End BlameGutter.

(** ** DiagnosticsProviderBase *)

Module DiagnosticsProviderBase.

Definition UPDATE_EVENT : string := "update".
Definition INVALIDATE_EVENT : string := "invalidate".

(** *** The objects the class is built on *)

(** A client function is known by its identity; [Noop] is [() => {}]. *)
Inductive Fn :=
| Bound (callback : nat)
| Noop.

Definition callbackOrNoop (callback : option nat) : Fn :=
  match callback with
  | Some callback => Bound callback
  | None => Noop
  end.

(** event-kit's [Emitter]: the handlers of each event name in registration
    order, dropped by [dispose()]. *)
Record Emitter := {
  disposed : bool;
  handlersByEventName : gmap string (list nat)
}.

Definition Emitter_new : Emitter :=
  {| disposed := false; handlersByEventName := ∅ |}.

Definition handlers (eventName : string) (e : Emitter) : list nat :=
  default [] (handlersByEventName e !! eventName).

(** [emitter.on(eventName, handler)] throws on a disposed emitter ([None]);
    the [Disposable] it returns is named by what it would remove. *)
Record Disposable := { of_event : string; of_handler : nat }.

Definition Emitter_on (eventName : string) (handler : nat) (e : Emitter)
  : option (Disposable * Emitter) :=
  if disposed e then None
  else Some ({| of_event := eventName; of_handler := handler |},
             {| disposed := false;
                handlersByEventName :=
                  <[eventName := handlers eventName e ++ [handler]]>
                    (handlersByEventName e) |}).

Definition Emitter_dispose (e : Emitter) : Emitter :=
  {| disposed := true; handlersByEventName := ∅ |}.

(** The text event dispatcher, as the history of what was asked of it,
    latest first. The handle of a subscription is its rank among the
    subscriptions made. *)
Inductive Subscription :=
| onAnyFileChange (callback : Fn)
| onFileChange (grammarScopes : gset string) (callback : Fn)
| onAnyFileSave (callback : Fn)
| onFileSave (grammarScopes : gset string) (callback : Fn).

Inductive DispatcherEvent :=
| Subscribed (what : Subscription)
| Disposed (handle : nat).

Definition Dispatcher := list DispatcherEvent.

Fixpoint subscriptions_made (d : list DispatcherEvent) : nat :=
  match d with
  | [] => 0
  | Subscribed _ :: d' => S (subscriptions_made d')
  | Disposed _ :: d' => subscriptions_made d'
  end.

(** Modelled from the spec: [onAnyFileChange], [onFileChange],
    [onAnyFileSave] and [onFileSave] of [TextEventDispatcher], which is not
    among the sources, each return a disposable handle, owned by the caller
    and disposable without effect on any other. *)
Definition subscribe (what : Subscription) (d : list DispatcherEvent)
  : nat * list DispatcherEvent :=
  (subscriptions_made d, Subscribed what :: d).

(** The subscriptions made and not disposed of. *)
Fixpoint active (d : list DispatcherEvent) : list nat :=
  match d with
  | [] => []
  | Subscribed _ :: d' => subscriptions_made d' :: active d'
  | Disposed handle :: d' => filter (λ h, h ≠ handle) (active d')
  end.

(** How many times [dispose()] was called on a subscription. *)
Fixpoint disposals (handle : nat) (d : list DispatcherEvent) : nat :=
  match d with
  | [] => 0
  | Subscribed _ :: d' => disposals handle d'
  | Disposed h :: d' => (if decide (h = handle) then 1 else 0) + disposals handle d'
  end.

(** Calls of client functions made by the class: a subscriber hook with the
    callback it was given and the handlers its channel had at that moment
    (whom a publish from inside the hook reaches), or a handler with the
    message emitted to it. *)
Inductive Invocation :=
| HookCall (hook : Fn) (callback : nat) (registered : list nat)
| HandlerCall (handler : nat) (message : string).

(** *** The class *)

Record Options := {
  onTextEditorEvent : option nat;
  onNewUpdateSubscriber : option nat;
  onNewInvalidateSubscriber : option nat;
  grammarScopes : option (list string);
  enableForAllGrammars : bool;
  shouldRunOnTheFly : bool
}.

Record Fields := {
  _emitter : Emitter;
  _disposables_disposed : bool;
  _textEventCallback : Fn;
  _newUpdateSubscriberCallback : Fn;
  _newInvalidateSubscriberCallback : Fn;
  _grammarScopes : gset string;
  _allGrammarScopes : bool;
  _currentEventSubscription : option nat
}.

(** An instance with the dispatcher [this._textEventDispatcher] refers to
    and the calls of client functions so far. *)
Record State := {
  this : Fields;
  _textEventDispatcher : list DispatcherEvent;
  invocations : list Invocation
}.

Definition set_emitter (e : Emitter) (t : Fields) : Fields :=
  {| _emitter := e;
     _disposables_disposed := _disposables_disposed t;
     _textEventCallback := _textEventCallback t;
     _newUpdateSubscriberCallback := _newUpdateSubscriberCallback t;
     _newInvalidateSubscriberCallback := _newInvalidateSubscriberCallback t;
     _grammarScopes := _grammarScopes t;
     _allGrammarScopes := _allGrammarScopes t;
     _currentEventSubscription := _currentEventSubscription t |}.

Definition set_disposables_disposed (b : bool) (t : Fields) : Fields :=
  {| _emitter := _emitter t;
     _disposables_disposed := b;
     _textEventCallback := _textEventCallback t;
     _newUpdateSubscriberCallback := _newUpdateSubscriberCallback t;
     _newInvalidateSubscriberCallback := _newInvalidateSubscriberCallback t;
     _grammarScopes := _grammarScopes t;
     _allGrammarScopes := _allGrammarScopes t;
     _currentEventSubscription := _currentEventSubscription t |}.

Definition set_currentEventSubscription (c : option nat) (t : Fields) : Fields :=
  {| _emitter := _emitter t;
     _disposables_disposed := _disposables_disposed t;
     _textEventCallback := _textEventCallback t;
     _newUpdateSubscriberCallback := _newUpdateSubscriberCallback t;
     _newInvalidateSubscriberCallback := _newInvalidateSubscriberCallback t;
     _grammarScopes := _grammarScopes t;
     _allGrammarScopes := _allGrammarScopes t;
     _currentEventSubscription := c |}.

Definition with_this (f : Fields → Fields) (s : State) : State :=
  {| this := f (this s);
     _textEventDispatcher := _textEventDispatcher s;
     invocations := invocations s |}.

Definition with_dispatcher (d : list DispatcherEvent) (s : State) : State :=
  {| this := this s; _textEventDispatcher := d; invocations := invocations s |}.

Definition invoke (i : Invocation) (s : State) : State :=
  {| this := this s;
     _textEventDispatcher := _textEventDispatcher s;
     invocations := invocations s ++ [i] |}.

Definition _disposeEventSubscription (s : State) : State :=
  match _currentEventSubscription (this s) with
  | Some subscription =>
      let s := with_dispatcher (Disposed subscription :: _textEventDispatcher s) s in
      with_this (set_currentEventSubscription None) s
  | None => s
  end.

Definition _subscribeToTextEditorEvent (shouldRunOnTheFly : bool) (s : State) : State :=
  let s := _disposeEventSubscription s in
  let dispatcher := _textEventDispatcher s in
  let '(subscription, dispatcher) :=
    if shouldRunOnTheFly then
      if _allGrammarScopes (this s) then
        subscribe (onAnyFileChange (_textEventCallback (this s))) dispatcher
      else
        subscribe (onFileChange (_grammarScopes (this s)) (_textEventCallback (this s)))
                  dispatcher
    else
      if _allGrammarScopes (this s) then
        subscribe (onAnyFileSave (_textEventCallback (this s))) dispatcher
      else
        subscribe (onFileSave (_grammarScopes (this s)) (_textEventCallback (this s)))
                  dispatcher in
  with_this (set_currentEventSubscription (Some subscription))
            (with_dispatcher dispatcher s).

Definition constructor (options : Options) (textEventDispatcher : list DispatcherEvent)
  : State :=
  let s :=
    {| this := {| _emitter := Emitter_new;
                  _disposables_disposed := false;
                  _textEventCallback := callbackOrNoop (onTextEditorEvent options);
                  _newUpdateSubscriberCallback :=
                    callbackOrNoop (onNewUpdateSubscriber options);
                  _newInvalidateSubscriberCallback :=
                    callbackOrNoop (onNewInvalidateSubscriber options);
                  _grammarScopes := list_to_set (default [] (grammarScopes options));
                  _allGrammarScopes := enableForAllGrammars options;
                  _currentEventSubscription := None |};
       _textEventDispatcher := textEventDispatcher;
       invocations := [] |} in
  _subscribeToTextEditorEvent (shouldRunOnTheFly options) s.

Definition setRunOnTheFly (runOnTheFly : bool) (s : State) : State :=
  _subscribeToTextEditorEvent runOnTheFly s.

Definition dispose (s : State) : State :=
  let s := with_this (λ t, set_emitter (Emitter_dispose (_emitter t)) t) s in
  let s := with_this (set_disposables_disposed true) s in
  _disposeEventSubscription s.

Definition getGrammarScopes (s : State) : gset string := _grammarScopes (this s).

(** [emitter.emit(eventName, value)]: every handler is called, in order. *)
Definition emit (eventName message : string) (s : State) : State :=
  foldl (λ s handler, invoke (HandlerCall handler message) s) s
        (handlers eventName (_emitter (this s))).

Definition publishMessageUpdate (update : string) (s : State) : State :=
  emit UPDATE_EVENT update s.

Definition publishMessageInvalidation (message : string) (s : State) : State :=
  emit INVALIDATE_EVENT message s.

Definition onMessageUpdate (callback : nat) (s : State) : option (Disposable * State) :=
  '(disposable, e) ← Emitter_on UPDATE_EVENT callback (_emitter (this s));
  let s := with_this (set_emitter e) s in
  let s := invoke (HookCall (_newUpdateSubscriberCallback (this s)) callback
                            (handlers UPDATE_EVENT (_emitter (this s)))) s in
  Some (disposable, s).

Definition onMessageInvalidation (callback : nat) (s : State)
  : option (Disposable * State) :=
  '(disposable, e) ← Emitter_on INVALIDATE_EVENT callback (_emitter (this s));
  let s := with_this (set_emitter e) s in
  let s := invoke (HookCall (_newInvalidateSubscriberCallback (this s)) callback
                            (handlers INVALIDATE_EVENT (_emitter (this s)))) s in
  Some (disposable, s).

End DiagnosticsProviderBase.

(** * Facts about [Map] and [Set] *)

Module JSMapFacts.
Section WithValue.
Context {V : Type}.
Implicit Types (m : list (nat * V)) (k l : nat) (v : V).

Lemma get_set_eq m k v : JSMap.get k (JSMap.set k v m) = Some v.
Proof.
  induction m as [|[k' v'] m IH]; simpl.
  - by rewrite decide_True.
  - destruct (decide (k = k')) as [->|Hne]; simpl.
    + by rewrite decide_True.
    + by rewrite decide_False.
Qed.

Lemma get_set_ne m k l v : k ≠ l → JSMap.get l (JSMap.set k v m) = JSMap.get l m.
Proof.
  intros Hkl. induction m as [|[k' v'] m IH]; simpl.
  - by rewrite decide_False.
  - destruct (decide (k = k')) as [->|Hne]; simpl.
    + by rewrite !decide_False.
    + by rewrite IH.
Qed.

Lemma get_delete m k l :
  JSMap.get l (JSMap.delete k m) = if decide (l = k) then None else JSMap.get l m.
Proof.
  unfold JSMap.delete. induction m as [|[k' v'] m IH]; simpl; [by case_decide|].
  rewrite filter_cons. simpl.
  destruct (decide (k' ≠ k)) as [Hk|Hk]; simpl; rewrite IH.
  - destruct (decide (l = k')) as [->|]; [by rewrite decide_False | done].
  - apply dec_stable in Hk as ->. by destruct (decide (l = k)).
Qed.

Lemma elem_of_keys m l : l ∈ JSMap.keys m ↔ is_Some (JSMap.get l m).
Proof.
  unfold JSMap.keys. induction m as [|[k' v'] m IH]; simpl.
  - split; [intros H; by apply elem_of_nil in H | intros [? ?]; done].
  - rewrite elem_of_cons, IH. destruct (decide (l = k')) as [->|Hne].
    + split; [by eexists | by left].
    + split; [by intros [?|?] | by right].
Qed.

Lemma not_elem_of_keys m l : l ∉ JSMap.keys m ↔ JSMap.get l m = None.
Proof. rewrite elem_of_keys, eq_None_not_Some. done. Qed.

Lemma get_Some_elem_of m l v : JSMap.get l m = Some v → (l, v) ∈ m.
Proof.
  induction m as [|[k' v'] m IH]; simpl; [done|].
  destruct (decide (l = k')) as [->|Hne].
  - intros [= ->]. by left.
  - intros H. right. by apply IH.
Qed.

Lemma delete_absent m k : JSMap.get k m = None → JSMap.delete k m = m.
Proof.
  unfold JSMap.delete. induction m as [|[k' v'] m IH]; simpl; [done|].
  destruct (decide (k = k')) as [->|Hne]; [done|].
  intros H. rewrite filter_cons_True by (simpl; congruence). by rewrite IH.
Qed.


(** What is left of a set after deleting the keys of [es] one by one. *)
Lemma elem_of_set_deletes (es : list (nat * V)) (s : list nat) l :
  l ∈ foldl (λ s (e : nat * V), JSSet.delete e.1 s) s es ↔ l ∈ s ∧ l ∉ JSMap.keys es.
Proof.
  revert s. induction es as [|[k v] es IH]; intros s; simpl.
  - rewrite elem_of_nil. tauto.
  - rewrite IH. unfold JSSet.delete.
    rewrite list_elem_of_filter, not_elem_of_cons. tauto.
Qed.

Lemma NoDup_set_deletes (es : list (nat * V)) (s : list nat) :
  NoDup s → NoDup (foldl (λ s (e : nat * V), JSSet.delete e.1 s) s es).
Proof.
  revert s. induction es as [|[k v] es IH]; intros s H; simpl; [done|].
  apply IH. unfold JSSet.delete. by apply NoDup_filter.
Qed.

End WithValue.

End JSMapFacts.

(** * Properties of the blame gutter *)

Module BlameGutterSpec.
Import BlameGutter.

Abbreviation lines s := (_bufferLineToDecoration (this s)).
Abbreviation decs s := (decorations (_editor s)).
Abbreviation marks s := (markers (_editor s)).

(** The snapshot of the width example, at any two lines. *)
Definition alice_bob (l1 l2 : nat) : BlameForEditor :=
  [(l1, {| author := "alice"; changeset := Some "abc123" |});
   (l2, {| author := "bob"; changeset := None |})].

(** The step of the first loop of [_updateBlame]. *)
Definition longer (longestBlame : Z) (blameInfo : BlameInfo) : Z :=
  if decide (blameLength blameInfo > longestBlame)%Z
  then blameLength blameInfo else longestBlame.

Lemma longer_ge_acc (l : list BlameInfo) :
  ∀ a, (a ≤ foldl longer a l)%Z.
Proof.
  induction l as [|x l IH]; intros a; simpl; [lia|].
  specialize (IH (longer a x)). unfold longer in *. case_decide; lia.
Qed.

Lemma longer_ge_elem (l : list BlameInfo) :
  ∀ a x, x ∈ l → (blameLength x ≤ foldl longer a l)%Z.
Proof.
  induction l as [|y l IH]; intros a x Hx; [by apply elem_of_nil in Hx|].
  apply elem_of_cons in Hx as [->|Hx]; simpl; [|by apply IH].
  pose proof (longer_ge_acc l (longer a y)) as H.
  unfold longer in *. case_decide; lia.
Qed.

Lemma longer_attained (l : list BlameInfo) :
  ∀ a, foldl longer a l = a ∨ Exists (λ x, blameLength x = foldl longer a l) l.
Proof.
  induction l as [|y l IH]; intros a; simpl; [by left|].
  destruct (IH (longer a y)) as [E|E].
  - rewrite E. unfold longer. case_decide; [right; by left | by left].
  - right. by right.
Qed.

Lemma blameLength_nonneg (b : BlameInfo) : (0 ≤ blameLength b)%Z.
Proof.
  unfold blameLength, JS.if_truthy, JS.strlen.
  destruct (changeset b) as [[|c r]|]; lia.
Qed.

Lemma blameLength_le_longest (S : BlameForEditor) (l : nat) (b : BlameInfo) :
  (l, b) ∈ S → (blameLength b ≤ longestBlame_of S)%Z.
Proof.
  intros H. apply (longer_ge_elem (JSMap.values S) 0%Z b).
  unfold JSMap.values. apply list_elem_of_fmap. by exists (l, b).
Qed.

(** [repeat] and the item of an entry whose label fits. *)
Lemma repeat_ok (s : string) (count : Z) :
  (0 ≤ count)%Z →
  JS.repeat s count = Some (Nat.iter (Z.to_nat count) (String.append s) EmptyString).
Proof. intros H. unfold JS.repeat. case_decide; [lia | done]. Qed.

Lemma createGutterItem_fits (b : BlameInfo) (longestBlame : Z) (s : State) :
  (blameLength b ≤ longestBlame)%Z → is_Some (_createGutterItem b longestBlame s).
Proof.
  unfold blameLength, _createGutterItem, JS.if_truthy.
  destruct (changeset b) as [[|c r]|]; intros H; [by eexists| |by eexists].
  rewrite repeat_ok by lia. by eexists.
Qed.

(** *** One pass of [_updateBlame] *)

Section Reconcile.

Variable BLAME_DECORATION_CLASS : string.


(** The [decorationProperties] object of [_setBlameLine]. *)
Definition properties_of (s : State) (item : list Node) : DecorationProperties :=
  {| dp_type := "gutter";
     dp_gutterName := gutter_name (_gutter s);
     dp_class := BLAME_DECORATION_CLASS;
     dp_item := item |}.

(** The marker and the properties of a decoration of the editor. *)
Definition marker_of (s : State) (decoration : nat) : option nat :=
  decoration_marker <$> decs s !! decoration.

Definition properties_at (s : State) (decoration : nat) : option DecorationProperties :=
  decoration_properties <$> decs s !! decoration.

(** Every decoration of the map is in the editor, on a marker of the
    editor, and no two lines share a marker. *)
Definition wf (s : State) : Prop :=
  (∀ l d, JSMap.get l (lines s) = Some d →
     ∃ mk, marker_of s d = Some mk ∧ mk < length (marks s)) ∧
  (∀ l1 l2 d1 d2 mk,
     JSMap.get l1 (lines s) = Some d1 → JSMap.get l2 (lines s) = Some d2 →
     marker_of s d1 = Some mk → marker_of s d2 = Some mk → l1 = l2).

(** [s'] differs from [s] in the map, the markers and the decorations only. *)
Definition same_frame (s s' : State) : Prop :=
  this s' = set_bufferLineToDecoration (lines s') (this s) ∧
  _editor s' = set_decorations (decs s') (set_markers (marks s') (_editor s)) ∧
  _gutter s' = _gutter s ∧
  env s' = env s.

Lemma same_frame_refl s : same_frame s s.
Proof.
  destruct s as [[] [] ? ?]. by repeat split.
Qed.

Lemma same_frame_trans s1 s2 s3 :
  same_frame s1 s2 → same_frame s2 s3 → same_frame s1 s3.
Proof.
  intros (Ht & He & Hg & Hv) (Ht' & He' & Hg' & Hv').
  repeat split; [| |congruence|congruence].
  - rewrite Ht', Ht. done.
  - rewrite He', He. done.
Qed.

Lemma same_frame_item s s' b longestBlame :
  same_frame s s' → _createGutterItem b longestBlame s' = _createGutterItem b longestBlame s.
Proof.
  intros (Ht & _). unfold _createGutterItem. by rewrite Ht.
Qed.

Lemma same_frame_properties s s' item :
  same_frame s s' → properties_of s' item = properties_of s item.
Proof. intros (_ & _ & Hg & _). unfold properties_of. by rewrite Hg. Qed.

Lemma setBlameLine_present l b longestBlame s d item :
  _createGutterItem b longestBlame s = Some item →
  JSMap.get l (lines s) = Some d →
  _setBlameLine BLAME_DECORATION_CLASS l b longestBlame s =
    Some (with_editor (setProperties d (properties_of s item)) s).
Proof.
  intros Hi Hg. unfold _setBlameLine. rewrite Hi. simpl. by rewrite Hg.
Qed.

Lemma setBlameLine_absent l b longestBlame s item :
  _createGutterItem b longestBlame s = Some item →
  JSMap.get l (lines s) = None →
  ∃ s', _setBlameLine BLAME_DECORATION_CLASS l b longestBlame s = Some s' ∧
        same_frame s s' ∧
        lines s' = JSMap.set l (length (decs s)) (lines s) ∧
        decs s' = decs s ++ [{| decoration_marker := length (marks s);
                                decoration_properties := properties_of s item |}] ∧
        marks s' = marks s ++ [{| marker_line := l; marker_destroy_calls := 0 |}].
Proof.
  intros Hi Hg. unfold _setBlameLine. rewrite Hi. simpl. rewrite Hg.
  eexists. split; [done|]. destruct s as [[] [] ? ?]. by repeat split.
Qed.

Lemma same_frame_setProperties s d p :
  same_frame s (with_editor (setProperties d p) s).
Proof. destruct s as [[] [] ? ?]. by repeat split. Qed.

Lemma same_frame_remove s l : same_frame s (_removeBlameLine l s).
Proof.
  unfold _removeBlameLine. destruct (JSMap.get l (lines s)) as [d|];
    [|apply same_frame_refl].
  destruct s as [[] [] ? ?]. unfold destroy_marker_of, with_this, with_editor. simpl.
  destruct (decorations0 !! d); by repeat split.
Qed.

(** The second loop of [_updateBlame], on the state alone. *)
Definition setLines (longestBlame : Z) (entries : BlameForEditor) (s : State)
  : option State :=
  foldl (λ os e, s ← os; _setBlameLine BLAME_DECORATION_CLASS e.1 e.2 longestBlame s)
        (Some s) entries.

Lemma setLines_snoc longestBlame es e s :
  setLines longestBlame (es ++ [e]) s =
    s' ← setLines longestBlame es s;
    _setBlameLine BLAME_DECORATION_CLASS e.1 e.2 longestBlame s'.
Proof. unfold setLines. by rewrite foldl_app. Qed.

Lemma setLines_cons longestBlame es l b s :
  setLines longestBlame ((l, b) :: es) s =
    s' ← _setBlameLine BLAME_DECORATION_CLASS l b longestBlame s;
    setLines longestBlame es s'.
Proof.
  unfold setLines. simpl.
  destruct (_setBlameLine _ l b longestBlame s) as [s'|]; simpl; [done|].
  induction es as [|e es IH]; [done|]. simpl. apply IH.
Qed.

Lemma setBlameLines_split longestBlame es :
  ∀ prev s,
    setBlameLines BLAME_DECORATION_CLASS longestBlame es prev s =
      s' ← setLines longestBlame es s;
      Some (foldl (λ p (e : nat * BlameInfo), JSSet.delete e.1 p) prev es, s').
Proof.
  induction es as [|[l b] es IH]; intros prev s; [done|].
  rewrite setLines_cons. simpl.
  destruct (_setBlameLine _ l b longestBlame s) as [s'|]; simpl; [|done].
  apply IH.
Qed.

(** What the second loop has done once it has gone through [es]. *)
Record SetInv (longestBlame : Z) (s : State) (es : BlameForEditor) (s' : State)
  : Prop := {
  set_frame : same_frame s s';
  set_kept : ∀ l d, JSMap.get l (lines s) = Some d → JSMap.get l (lines s') = Some d;
  set_keys : ∀ l, is_Some (JSMap.get l (lines s')) ↔
                  (is_Some (JSMap.get l (lines s)) ∨ l ∈ JSMap.keys es);
  set_marks : ∃ new, marks s' = marks s ++ new;
  set_decs_length : length (decs s) ≤ length (decs s');
  set_decs_kept : ∀ d, d < length (decs s) → marker_of s' d = marker_of s d;
  set_props : ∀ l, l ∈ JSMap.keys es →
    ∃ d b item, JSMap.get l (lines s') = Some d ∧ (l, b) ∈ es ∧
                _createGutterItem b longestBlame s = Some item ∧
                properties_at s' d = Some (properties_of s item);
  set_new : ∀ l, JSMap.get l (lines s) = None → l ∈ JSMap.keys es →
    ∃ d mk, JSMap.get l (lines s') = Some d ∧ length (decs s) ≤ d ∧
            marker_of s' d = Some mk ∧ length (marks s) ≤ mk ∧
            marks s' !! mk = Some {| marker_line := l; marker_destroy_calls := 0 |};
  set_created : ∀ d, length (decs s) ≤ d → d < length (decs s') →
    ∃ l, l ∈ JSMap.keys es ∧ JSMap.get l (lines s) = None ∧
         JSMap.get l (lines s') = Some d;
  set_wf : wf s'
}.

Lemma keys_snoc (es : BlameForEditor) (l0 : nat) (b0 : BlameInfo) (l : nat) :
  l ∈ JSMap.keys (es ++ [(l0, b0)]) ↔ l ∈ JSMap.keys es ∨ l = l0.
Proof.
  unfold JSMap.keys. rewrite fmap_app, elem_of_app. simpl.
  rewrite list_elem_of_singleton. done.
Qed.

Lemma marker_of_lt s d mk : marker_of s d = Some mk → d < length (decs s).
Proof.
  unfold marker_of. intros H. apply fmap_Some in H as (dec & H & _).
  by apply lookup_lt_Some in H.
Qed.

Lemma properties_at_lt s d p : properties_at s d = Some p → d < length (decs s).
Proof.
  unfold properties_at. intros H. apply fmap_Some in H as (dec & H & _).
  by apply lookup_lt_Some in H.
Qed.

(** [setProperties] keeps every decoration on its marker. *)
Lemma marker_of_setProperties s d p d' :
  marker_of (with_editor (setProperties d p) s) d' = marker_of s d'.
Proof.
  unfold marker_of. simpl. rewrite list_lookup_alter.
  destruct (decide (d = d')) as [->|]; [|done].
  by destruct (decs s !! d').
Qed.

Lemma properties_at_setProperties s d p d' :
  properties_at (with_editor (setProperties d p) s) d' =
    if decide (d = d') then (λ _, p) <$> properties_at s d' else properties_at s d'.
Proof.
  unfold properties_at. simpl. rewrite list_lookup_alter.
  destruct (decide (d = d')) as [->|]; [|done].
  by destruct (decs s !! d').
Qed.

Lemma wf_setProperties s d p : wf s → wf (with_editor (setProperties d p) s).
Proof.
  intros [W1 W2]. split.
  - intros l d' Hg. setoid_rewrite marker_of_setProperties. by apply (W1 l).
  - intros l1 l2 d1 d2 mk. rewrite !marker_of_setProperties. apply W2.
Qed.

Lemma setLines_inv_nil longestBlame s : wf s → SetInv longestBlame s [] s.
Proof.
  intros Hwf. split; try done.
  - apply same_frame_refl.
  - intros l. split; [by left|]. intros [H|H]; [done|]. by apply elem_of_nil in H.
  - exists []. by rewrite app_nil_r.
  - intros l H. by apply elem_of_nil in H.
  - intros l _ H. by apply elem_of_nil in H.
  - intros d ? ?. lia.
Qed.

(** A line that is in the map already: its decoration gets new properties. *)
Lemma setLines_inv_present longestBlame s es s1 l0 b0 d0 item :
  SetInv longestBlame s es s1 →
  JSMap.get l0 (lines s1) = Some d0 →
  _createGutterItem b0 longestBlame s1 = Some item →
  SetInv longestBlame s (es ++ [(l0, b0)])
         (with_editor (setProperties d0 (properties_of s1 item)) s1).
Proof.
  intros Inv Hg Hitem.
  pose proof (set_wf _ _ _ _ Inv) as Hwf1.
  set (s2 := with_editor (setProperties d0 (properties_of s1 item)) s1).
  assert (Hin : is_Some (JSMap.get l0 (lines s)) ∨ l0 ∈ JSMap.keys es).
  { apply (set_keys _ _ _ _ Inv). by eexists. }
  split.
  - eapply same_frame_trans; [apply Inv | apply same_frame_setProperties].
  - apply Inv.
  - intros l. change (lines s2) with (lines s1). rewrite keys_snoc.
    rewrite (set_keys _ _ _ _ Inv l). split; [tauto|].
    intros [?|[?| ->]]; tauto.
  - apply Inv.
  - simpl. rewrite length_alter. apply Inv.
  - intros d Hd. unfold s2. rewrite marker_of_setProperties. by apply Inv.
  - intros l Hl. apply keys_snoc in Hl.
    destruct (decide (l = l0)) as [->|Hne].
    + exists d0, b0, item. split; [done|]. split; [apply elem_of_app; right; by left|].
      split; [by rewrite <- (same_frame_item s s1) by apply Inv|].
      unfold s2. rewrite properties_at_setProperties, decide_True by done.
      destruct Hwf1 as [W1 _]. destruct (W1 _ _ Hg) as (mk & Hmk & _).
      unfold marker_of in Hmk. unfold properties_at.
      destruct (decs s1 !! d0); [|done]. simpl.
      by rewrite (same_frame_properties s s1) by apply Inv.
    + destruct Hl as [Hl|]; [|done].
      destruct (set_props _ _ _ _ Inv l Hl) as (d & b & it & Hgd & Hb & Hit & Hp).
      exists d, b, it. split; [done|]. split; [apply elem_of_app; by left|].
      split; [done|]. unfold s2. rewrite properties_at_setProperties.
      rewrite decide_False; [done|]. intros <-.
      destruct Hwf1 as [W1 W2]. destruct (W1 _ _ Hg) as (mk & Hmk & _).
      apply Hne. by apply (W2 l l0 d0 d0 mk).
  - intros l Hnone Hl.
    assert (Hl' : l ∈ JSMap.keys es).
    { apply keys_snoc in Hl as [?| ->]; [done|].
      destruct Hin as [[? H]|?]; [congruence|done]. }
    destruct (set_new _ _ _ _ Inv l Hnone Hl') as (d & mk & ? & ? & ? & ? & ?).
    exists d, mk. unfold s2. rewrite marker_of_setProperties. done.
  - intros d H1 H2. unfold s2 in H2. simpl in H2. rewrite length_alter in H2.
    destruct (set_created _ _ _ _ Inv d H1 H2) as (l & ? & ? & ?).
    exists l. split; [apply keys_snoc; by left|done].
  - by apply wf_setProperties.
Qed.

(** A line that is not in the map yet: a marker and a decoration are made. *)
Lemma setLines_inv_absent longestBlame s es s1 s2 l0 b0 item :
  SetInv longestBlame s es s1 →
  JSMap.get l0 (lines s1) = None →
  _createGutterItem b0 longestBlame s1 = Some item →
  same_frame s1 s2 →
  lines s2 = JSMap.set l0 (length (decs s1)) (lines s1) →
  decs s2 = decs s1 ++ [{| decoration_marker := length (marks s1);
                           decoration_properties := properties_of s1 item |}] →
  marks s2 = marks s1 ++ [{| marker_line := l0; marker_destroy_calls := 0 |}] →
  SetInv longestBlame s (es ++ [(l0, b0)]) s2.
Proof.
  intros Inv Hg Hitem Hfr Hl Hd Hm.
  pose proof (set_wf _ _ _ _ Inv) as [W1 W2].
  pose proof (set_decs_length _ _ _ _ Inv) as Hlen.
  assert (Hold : ∀ d, d < length (decs s1) →
            marker_of s2 d = marker_of s1 d ∧ properties_at s2 d = properties_at s1 d).
  { intros d Hlt. unfold marker_of, properties_at. by rewrite Hd, lookup_app_l. }
  assert (Hnew : marker_of s2 (length (decs s1)) = Some (length (marks s1)) ∧
                 properties_at s2 (length (decs s1)) = Some (properties_of s1 item)).
  { unfold marker_of, properties_at. by rewrite Hd, list_lookup_middle. }
  assert (Hget : ∀ l, JSMap.get l (lines s2) =
                      if decide (l = l0) then Some (length (decs s1))
                      else JSMap.get l (lines s1)).
  { intros l. rewrite Hl. destruct (decide (l = l0)) as [->|].
    - apply JSMapFacts.get_set_eq.
    - by apply JSMapFacts.get_set_ne. }
  assert (Hnone0 : JSMap.get l0 (lines s) = None).
  { destruct (JSMap.get l0 (lines s)) eqn:E; [|done].
    apply (set_kept _ _ _ _ Inv) in E. congruence. }
  destruct (set_marks _ _ _ _ Inv) as [new Hnewm].
  assert (Hmlen : length (marks s) ≤ length (marks s1)).
  { rewrite Hnewm, length_app. lia. }
  split.
  - eapply same_frame_trans; [apply Inv | done].
  - intros l d H. apply (set_kept _ _ _ _ Inv) in H. rewrite Hget.
    rewrite decide_False; [done|]. intros ->. congruence.
  - intros l. rewrite Hget, keys_snoc. destruct (decide (l = l0)) as [->|Hne].
    + split; [by right; right | by eexists].
    + rewrite (set_keys _ _ _ _ Inv l). tauto.
  - exists (new ++ [{| marker_line := l0; marker_destroy_calls := 0 |}]).
    by rewrite Hm, Hnewm, <- app_assoc.
  - rewrite Hd, length_app. simpl. lia.
  - intros d Hlt. rewrite (proj1 (Hold d ltac:(lia))). by apply Inv.
  - intros l Hin. apply keys_snoc in Hin. rewrite Hget.
    destruct (decide (l = l0)) as [->|Hne].
    + exists (length (decs s1)), b0, item. split; [done|].
      split; [apply elem_of_app; right; by left|].
      split; [by rewrite <- (same_frame_item s s1) by apply Inv|].
      rewrite (proj2 Hnew). f_equal. apply same_frame_properties, Inv.
    + destruct Hin as [Hin|]; [|done].
      destruct (set_props _ _ _ _ Inv l Hin) as (d & b & it & Hgd & Hb & Hit & Hp).
      exists d, b, it. split; [done|]. split; [apply elem_of_app; by left|].
      split; [done|]. apply properties_at_lt in Hp as Hlt.
      by rewrite (proj2 (Hold d Hlt)).
  - intros l Hnone Hin. apply keys_snoc in Hin. rewrite Hget.
    destruct (decide (l = l0)) as [->|Hne].
    + exists (length (decs s1)), (length (marks s1)). split; [done|].
      split; [done|]. split; [apply Hnew|]. split; [done|].
      by rewrite Hm, list_lookup_middle.
    + destruct Hin as [Hin|]; [|done].
      destruct (set_new _ _ _ _ Inv l Hnone Hin) as (d & mk & ? & ? & Hmk & ? & Hlk).
      exists d, mk. split; [done|]. split; [done|].
      apply marker_of_lt in Hmk as Hlt. rewrite (proj1 (Hold d Hlt)).
      split; [done|]. split; [done|]. rewrite Hm. by apply lookup_app_l_Some.
  - intros d H1 H2. rewrite Hd, length_app in H2. simpl in H2.
    destruct (decide (d = length (decs s1))) as [->|Hne].
    + exists l0. split; [apply keys_snoc; by right|]. split; [done|].
      by rewrite Hget, decide_True.
    + destruct (set_created _ _ _ _ Inv d H1 ltac:(lia)) as (l & ? & ? & Hgl).
      exists l. split; [apply keys_snoc; by left|]. split; [done|].
      rewrite Hget, decide_False; [done|]. intros ->. congruence.
  - split.
    + intros l d. rewrite Hget, Hm, length_app. simpl.
      destruct (decide (l = l0)) as [->|Hne].
      * intros [= <-]. exists (length (marks s1)). split; [apply Hnew | lia].
      * intros H. destruct (W1 _ _ H) as (mk & Hmk & ?).
        exists mk. apply marker_of_lt in Hmk as Hlt.
        rewrite (proj1 (Hold d Hlt)). split; [done | lia].
    + assert (Hfresh : ∀ l d mk, l ≠ l0 → JSMap.get l (lines s1) = Some d →
                marker_of s2 d = Some mk →
                marker_of s1 d = Some mk ∧ mk < length (marks s1)).
      { intros l d mk Hne H Hmk. destruct (W1 _ _ H) as (mk' & Hmk' & ?).
        apply marker_of_lt in Hmk' as Hlt.
        rewrite (proj1 (Hold d Hlt)) in Hmk. split; [done|]. congruence. }
      intros l1 l2 d1 d2 mk. rewrite !Hget.
      destruct (decide (l1 = l0)) as [->|Hne1], (decide (l2 = l0)) as [->|Hne2];
        [done| | |].
      * intros [= <-] H2. rewrite (proj1 Hnew). intros [= <-] Hmk2.
        destruct (Hfresh _ _ _ Hne2 H2 Hmk2). lia.
      * intros H1 [= <-] Hmk1. rewrite (proj1 Hnew). intros [= <-].
        destruct (Hfresh _ _ _ Hne1 H1 Hmk1). lia.
      * intros H1 H2 Hmk1 Hmk2.
        destruct (Hfresh _ _ _ Hne1 H1 Hmk1), (Hfresh _ _ _ Hne2 H2 Hmk2).
        by apply (W2 l1 l2 d1 d2 mk).
Qed.

(** The second loop never throws on labels that fit, and does what
    [SetInv] says. *)
Lemma setLines_inv longestBlame s :
  wf s → ∀ es,
    Forall (λ e : nat * BlameInfo, (blameLength e.2 ≤ longestBlame)%Z) es →
    ∃ s', setLines longestBlame es s = Some s' ∧ SetInv longestBlame s es s'.
Proof.
  intros Hwf es. induction es as [|[l0 b0] es IH] using rev_ind; intros Hfit.
  - exists s. split; [done | by apply setLines_inv_nil].
  - apply Forall_app in Hfit as [Hes He]. rewrite Forall_singleton in He. simpl in He.
    destruct (IH Hes) as (s1 & Hrun & Inv).
    rewrite setLines_snoc, Hrun. simpl.
    destruct (createGutterItem_fits b0 longestBlame s1 He) as [item Hitem].
    destruct (JSMap.get l0 (lines s1)) as [d0|] eqn:Hg.
    + rewrite (setBlameLine_present _ _ _ _ _ _ Hitem Hg).
      eexists. split; [done|]. by apply setLines_inv_present.
    + destruct (setBlameLine_absent _ _ _ _ _ Hitem Hg)
        as (s2 & Hrun2 & Hfr & Hl & Hd & Hm).
      exists s2. split; [done|]. by eapply setLines_inv_absent.
Qed.

(** *** The third loop: outdated lines *)

Definition removeLines (oldLines : list nat) (s : State) : State :=
  foldl (λ s oldLine, _removeBlameLine oldLine s) s oldLines.

Lemma lines_remove l s :
  lines (_removeBlameLine l s) = JSMap.delete l (lines s).
Proof.
  unfold _removeBlameLine. destruct (JSMap.get l (lines s)) eqn:E; [done|].
  by rewrite JSMapFacts.delete_absent.
Qed.

Lemma decs_remove l s : decs (_removeBlameLine l s) = decs s.
Proof.
  unfold _removeBlameLine. destruct (JSMap.get l (lines s)) as [d|]; [|done].
  simpl. unfold destroy_marker_of. by destruct (decs s !! d).
Qed.

Lemma marker_of_remove l s d : marker_of (_removeBlameLine l s) d = marker_of s d.
Proof. unfold marker_of. by rewrite decs_remove. Qed.

(** Removing a line calls [destroy()] on the marker of its decoration
    and on no other. *)
Lemma marks_remove l s d mk :
  JSMap.get l (lines s) = Some d → marker_of s d = Some mk →
  marks (_removeBlameLine l s) = alter Marker_destroy mk (marks s).
Proof.
  intros Hg Hmk. unfold _removeBlameLine. rewrite Hg. simpl.
  unfold destroy_marker_of. unfold marker_of in Hmk.
  destruct (decs s !! d); [|done]. simpl in *. congruence.
Qed.

Lemma marks_remove_absent l s :
  JSMap.get l (lines s) = None → marks (_removeBlameLine l s) = marks s.
Proof. intros Hg. unfold _removeBlameLine. by rewrite Hg. Qed.

Lemma wf_remove l s : wf s → wf (_removeBlameLine l s).
Proof.
  intros [W1 W2]. split.
  - intros l' d. rewrite lines_remove, JSMapFacts.get_delete, marker_of_remove.
    destruct (decide (l' = l)); [done|]. intros Hg.
    destruct (W1 _ _ Hg) as (mk & ? & ?). exists mk. split; [done|].
    destruct (JSMap.get l (lines s)) as [d0|] eqn:E.
    + destruct (W1 _ _ E) as (mk0 & ? & ?).
      by rewrite (marks_remove _ _ _ _ E H1), length_alter.
    + by rewrite marks_remove_absent.
  - intros l1 l2 d1 d2 mk.
    rewrite !lines_remove, !JSMapFacts.get_delete, !marker_of_remove.
    destruct (decide (l1 = l)), (decide (l2 = l)); try done. apply W2.
Qed.

Lemma removeLines_frame oldLines : ∀ s, same_frame s (removeLines oldLines s).
Proof.
  induction oldLines as [|l R IH]; intros s; [apply same_frame_refl|].
  eapply same_frame_trans; [apply (same_frame_remove s l) | apply IH].
Qed.

Lemma removeLines_lines oldLines :
  ∀ s l, JSMap.get l (lines (removeLines oldLines s)) =
         if decide (l ∈ oldLines) then None else JSMap.get l (lines s).
Proof.
  induction oldLines as [|l0 R IH]; intros s l.
  - destruct (decide (l ∈ [])) as [H|]; [by apply elem_of_nil in H | done].
  - unfold removeLines in *. simpl. rewrite IH, lines_remove, JSMapFacts.get_delete.
    destruct (decide (l ∈ l0 :: R)) as [[->|H]%elem_of_cons|H%not_elem_of_cons].
    + by repeat case_decide.
    + by rewrite decide_True.
    + destruct H. by rewrite !decide_False.
Qed.

Lemma removeLines_decs oldLines : ∀ s, decs (removeLines oldLines s) = decs s.
Proof.
  induction oldLines as [|l0 R IH]; intros s; [done|].
  simpl. unfold removeLines in *. by rewrite IH, decs_remove.
Qed.

Lemma removeLines_wf oldLines : ∀ s, wf s → wf (removeLines oldLines s).
Proof.
  induction oldLines as [|l0 R IH]; intros s Hwf; [done|].
  simpl. apply IH. by apply wf_remove.
Qed.

(** The markers after the third loop: [destroy()] was called once on the
    marker of every outdated line, and on no other marker. *)
Lemma removeLines_marks oldLines :
  ∀ s, wf s → NoDup oldLines →
    (∀ l d mk, l ∈ oldLines → JSMap.get l (lines s) = Some d →
       marker_of s d = Some mk →
       marks (removeLines oldLines s) !! mk = Marker_destroy <$> marks s !! mk) ∧
    (∀ mk, (∀ l d, l ∈ oldLines → JSMap.get l (lines s) = Some d →
              marker_of s d ≠ Some mk) →
       marks (removeLines oldLines s) !! mk = marks s !! mk).
Proof.
  induction oldLines as [|l0 R IH]; intros s Hwf Hnd.
  - split; [|done]. intros l d mk H. by apply elem_of_nil in H.
  - apply NoDup_cons in Hnd as [Hl0 Hnd].
    destruct (IH (_removeBlameLine l0 s) (wf_remove l0 s Hwf) Hnd) as [IH1 IH2].
    destruct Hwf as [W1 W2].
    assert (Hother : ∀ l, l ∈ R → JSMap.get l (lines (_removeBlameLine l0 s)) =
                                    JSMap.get l (lines s)).
    { intros l Hl. rewrite lines_remove, JSMapFacts.get_delete.
      rewrite decide_False; [done|]. by intros ->. }
    assert (Hstep : ∀ mk, (∀ d, JSMap.get l0 (lines s) = Some d →
                             marker_of s d ≠ Some mk) →
              marks (_removeBlameLine l0 s) !! mk = marks s !! mk).
    { intros mk Hmk. destruct (JSMap.get l0 (lines s)) as [d0|] eqn:E.
      - destruct (W1 _ _ E) as (mk0 & Hmk0 & _).
        rewrite (marks_remove _ _ _ _ E Hmk0). apply list_lookup_alter_ne.
        intros ->. by apply (Hmk d0).
      - by rewrite marks_remove_absent. }
    change (removeLines (l0 :: R) s) with (removeLines R (_removeBlameLine l0 s)).
    split.
    + intros l d mk [->|Hl]%elem_of_cons Hg Hmk.
      * rewrite IH2.
        { rewrite (marks_remove _ _ _ _ Hg Hmk), list_lookup_alter.
          by rewrite decide_True. }
        intros l' d' Hl'. rewrite (Hother l' Hl'), marker_of_remove.
        intros Hg' Hmk'. apply Hl0.
        by rewrite <- (W2 l' l0 d' d mk Hg' Hg Hmk' Hmk).
      * rewrite (IH1 l d mk Hl); [| by rewrite Hother | by rewrite marker_of_remove].
        f_equal. apply Hstep. intros d0 Hg0 Hmk0. apply Hl0.
        by rewrite (W2 l0 l d0 d mk Hg0 Hg Hmk0 Hmk).
    + intros mk Hfree. rewrite IH2.
      * apply Hstep. intros d. apply Hfree. by left.
      * intros l d Hl. rewrite (Hother l Hl), marker_of_remove.
        apply Hfree. by right.
Qed.

(** *** The whole pass *)

Lemma setBlameLine_fits l b longestBlame s :
  (blameLength b ≤ longestBlame)%Z →
  ∃ s', _setBlameLine BLAME_DECORATION_CLASS l b longestBlame s = Some s' ∧
        same_frame s s'.
Proof.
  intros Hfit. destruct (createGutterItem_fits b longestBlame s Hfit) as [item Hitem].
  destruct (JSMap.get l (lines s)) as [d|] eqn:Hg.
  - rewrite (setBlameLine_present _ _ _ _ _ _ Hitem Hg).
    eexists. split; [done | apply same_frame_setProperties].
  - destruct (setBlameLine_absent _ _ _ _ _ Hitem Hg) as (s' & ? & ? & _).
    by exists s'.
Qed.

Lemma setLines_fits longestBlame es :
  Forall (λ e : nat * BlameInfo, (blameLength e.2 ≤ longestBlame)%Z) es →
  ∀ s, ∃ s', setLines longestBlame es s = Some s' ∧ same_frame s s'.
Proof.
  induction 1 as [|[l b] es Hb _ IH]; intros s.
  - exists s. split; [done | apply same_frame_refl].
  - destruct (setBlameLine_fits l b longestBlame s Hb) as (s1 & Hs1 & Hf1).
    destruct (IH s1) as (s2 & Hs2 & Hf2).
    exists s2. rewrite setLines_cons, Hs1. simpl.
    split; [done | by eapply same_frame_trans].
Qed.

Lemma snapshot_fits (S : BlameForEditor) :
  Forall (λ e : nat * BlameInfo, (blameLength e.2 ≤ longestBlame_of S)%Z) S.
Proof.
  apply Forall_forall. intros [l b] Hin. by apply (blameLength_le_longest S l).
Qed.

(** The state in which [_updateBlame] enters its loops. *)
Definition noticed (S : BlameForEditor) (s : State) : State :=
  if decide (JSMap.size S = 0)
  then with_env (push_notification (Info NO_BLAME_MESSAGE)) s else s.

(** The lines left in [allPreviousBlamedLines] after the second loop. *)
Definition outdated (S : BlameForEditor) (s : State) : list nat :=
  foldl (λ p (e : nat * BlameInfo), JSSet.delete e.1 p)
        (JSSet.of_iterable (JSMap.keys (lines s))) S.

Lemma updateBlame_unfold S s s1 :
  setLines (longestBlame_of S) S (noticed S s) = Some s1 →
  _updateBlame BLAME_DECORATION_CLASS S s =
    Some (_updateGutterWidthToCharacterLength (longestBlame_of S)
            (removeLines (outdated S s) s1)).
Proof.
  intros Hrun. unfold _updateBlame. fold (noticed S s).
  rewrite setBlameLines_split, Hrun. simpl.
  unfold outdated, noticed. by case_decide.
Qed.

Lemma elem_of_outdated S s l :
  l ∈ outdated S s ↔ is_Some (JSMap.get l (lines s)) ∧ l ∉ JSMap.keys S.
Proof.
  unfold outdated, JSSet.of_iterable.
  by rewrite JSMapFacts.elem_of_set_deletes, elem_of_remove_dups,
    JSMapFacts.elem_of_keys.
Qed.

Lemma NoDup_outdated S s : NoDup (outdated S s).
Proof. apply JSMapFacts.NoDup_set_deletes, NoDup_remove_dups. Qed.

(** [_updateBlame] returns, whatever the snapshot and the state; it sets
    the width, and adds the notice for an empty snapshot only. *)
Lemma updateBlame_returns S s :
  ∃ s', _updateBlame BLAME_DECORATION_CLASS S s = Some s' ∧
        gutter_style_width (_gutter s') =
          Some (JS.number_to_string (longestBlame_of S) +:+ "ch") ∧
        env s' = env (noticed S s).
Proof.
  destruct (setLines_fits _ S (snapshot_fits S) (noticed S s)) as (s1 & Hrun & Hf).
  eexists. split; [by apply updateBlame_unfold|]. split; [done|].
  simpl. destruct (removeLines_frame (outdated S s) s1) as (_ & _ & _ & ->).
  by destruct Hf as (_ & _ & _ & ->).
Qed.

(** What one pass over the snapshot [S] makes of a state [s]. *)
Record Pass (s : State) (S : BlameForEditor) (s' : State) : Prop := {
  pass_wf : wf s';
  pass_keys : ∀ l, l ∈ JSMap.keys (lines s') ↔ l ∈ JSMap.keys S;
  pass_kept : ∀ l d mk,
    JSMap.get l (lines s) = Some d → marker_of s d = Some mk → l ∈ JSMap.keys S →
    JSMap.get l (lines s') = Some d ∧ marker_of s' d = Some mk ∧
    marks s' !! mk = marks s !! mk ∧
    ∃ b item, (l, b) ∈ S ∧ _createGutterItem b (longestBlame_of S) s = Some item ∧
              properties_at s' d = Some (properties_of s item);
  pass_removed : ∀ l d mk,
    JSMap.get l (lines s) = Some d → marker_of s d = Some mk → l ∉ JSMap.keys S →
    JSMap.get l (lines s') = None ∧
    marks s' !! mk = Marker_destroy <$> marks s !! mk;
  pass_new : ∀ l, JSMap.get l (lines s) = None → l ∈ JSMap.keys S →
    ∃ d mk, JSMap.get l (lines s') = Some d ∧ length (decs s) ≤ d ∧
            marker_of s' d = Some mk ∧ length (marks s) ≤ mk ∧
            marks s' !! mk = Some {| marker_line := l; marker_destroy_calls := 0 |};
  pass_created : ∀ d, length (decs s) ≤ d → d < length (decs s') →
    ∃ l, l ∈ JSMap.keys S ∧ JSMap.get l (lines s) = None ∧
         JSMap.get l (lines s') = Some d
}.

Lemma updateBlame_pass S s :
  wf s → ∃ s', _updateBlame BLAME_DECORATION_CLASS S s = Some s' ∧ Pass s S s'.
Proof.
  intros Hwf.
  assert (Hn : this (noticed S s) = this s ∧ _editor (noticed S s) = _editor s ∧
               _gutter (noticed S s) = _gutter s).
  { unfold noticed. by case_decide. }
  destruct Hn as (Hnt & Hne & Hng).
  assert (Hwf0 : wf (noticed S s)).
  { unfold noticed. by case_decide. }
  destruct (setLines_inv (longestBlame_of S) _ Hwf0 S (snapshot_fits S))
    as (s1 & Hrun & Inv).
  eexists. split; [by apply updateBlame_unfold|].
  set (R := outdated S s). set (s2 := removeLines R s1).
  pose proof (set_wf _ _ _ _ Inv) as Hwf1.
  destruct (removeLines_marks R s1 Hwf1 (NoDup_outdated S s)) as [Rm1 Rm2].
  destruct (set_marks _ _ _ _ Inv) as [new Hnew].
  rewrite Hne in Hnew.
  assert (Hgone : ∀ l, l ∈ R → l ∉ JSMap.keys S)
    by (intros l Hl; by apply elem_of_outdated in Hl as [_ ?]).
  assert (Hstay : ∀ l, l ∈ JSMap.keys S ∨ JSMap.get l (lines s) = None → l ∉ R).
  { intros l H Hl. apply elem_of_outdated in Hl as [[d Hd] Hl]. destruct H; [done|congruence]. }
  assert (Hlines : ∀ l, l ∉ R → JSMap.get l (lines s2) = JSMap.get l (lines s1)).
  { intros l Hl. unfold s2. by rewrite removeLines_lines, decide_False. }
  assert (Hmark : ∀ d, marker_of s2 d = marker_of s1 d).
  { intros d. unfold marker_of, s2. by rewrite removeLines_decs. }
  assert (Hkeep : ∀ l d mk, l ∉ R → JSMap.get l (lines s1) = Some d →
            marker_of s1 d = Some mk → marks s2 !! mk = marks s1 !! mk).
  { intros l d mk Hl Hg Hmk. apply Rm2. intros l' d' Hl' Hg' Hmk'.
    destruct Hwf1 as [_ W2]. apply Hl.
    by rewrite (W2 l l' d d' mk Hg Hg' Hmk Hmk'). }
  destruct Hwf as [W1 W2].
  assert (Hold : ∀ l d mk, JSMap.get l (lines s) = Some d → marker_of s d = Some mk →
            JSMap.get l (lines s1) = Some d ∧ marker_of s1 d = Some mk ∧
            marks s1 !! mk = marks s !! mk).
  { intros l d mk Hg Hmk. split.
    - apply (set_kept _ _ _ _ Inv). by rewrite Hnt.
    - destruct (W1 _ _ Hg) as (mk' & Hmk' & Hlt).
      assert (mk' = mk) as -> by congruence. split.
      + rewrite (set_decs_kept _ _ _ _ Inv); rewrite ?Hne.
        * unfold marker_of in *. by rewrite Hne.
        * by apply marker_of_lt in Hmk.
      + by rewrite Hnew, lookup_app_l. }
  split.
  - by apply removeLines_wf.
  - intros l. rewrite JSMapFacts.elem_of_keys.
    change (lines (_updateGutterWidthToCharacterLength (longestBlame_of S) s2))
      with (lines s2).
    unfold s2. rewrite removeLines_lines. destruct (decide (l ∈ R)) as [Hl|Hl].
    + split; [by intros [? ?] | intros H; by apply Hgone in Hl].
    + rewrite (set_keys _ _ _ _ Inv l), Hnt. split; [|tauto].
      intros [H|H]; [|done]. destruct (decide (l ∈ JSMap.keys S)); [done|].
      exfalso. apply Hl. by apply elem_of_outdated.
  - intros l d mk Hg Hmk Hin. destruct (Hold l d mk Hg Hmk) as (Hg1 & Hmk1 & Hm1).
    assert (Hl : l ∉ R) by (apply Hstay; by left).
    split; [by rewrite <- Hg1; apply Hlines|].
    split; [by rewrite <- Hmk1; apply Hmark|].
    split; [by rewrite <- Hm1; apply (Hkeep l d)|].
    destruct (set_props _ _ _ _ Inv l Hin) as (d' & b & item & Hg' & Hb & Hit & Hp).
    assert (d' = d) as -> by congruence.
    exists b, item. split; [done|]. split.
    + rewrite <- Hit. unfold _createGutterItem. by rewrite Hnt.
    + unfold properties_at in *. simpl. unfold s2. rewrite removeLines_decs, Hp.
      unfold properties_of. by rewrite Hng.
  - intros l d mk Hg Hmk Hout. destruct (Hold l d mk Hg Hmk) as (Hg1 & Hmk1 & Hm1).
    assert (Hl : l ∈ R) by (apply elem_of_outdated; split; [by eexists | done]).
    split.
    + simpl. unfold s2. by rewrite removeLines_lines, decide_True.
    + rewrite <- Hm1. by apply (Rm1 l d).
  - intros l Hnone Hin.
    destruct (set_new _ _ _ _ Inv l) as (d & mk & Hg1 & Hd & Hmk1 & Hmk & Hm);
      [by rewrite Hnt | done |].
    rewrite Hne in Hd, Hmk.
    assert (Hl : l ∉ R) by (apply Hstay; by left).
    exists d, mk. split; [by rewrite <- Hg1; apply Hlines|]. split; [done|].
    split; [by rewrite <- Hmk1; apply Hmark|]. split; [done|].
    rewrite <- Hm. by apply (Hkeep l d).
  - intros d H1 H2. simpl in H2. unfold s2 in H2. rewrite removeLines_decs in H2.
    destruct (set_created _ _ _ _ Inv d) as (l & Hin & Hnone & Hg1);
      [by rewrite Hne | done |].
    rewrite Hnt in Hnone.
    exists l. split; [done|]. split; [done|].
    rewrite <- Hg1. apply Hlines, Hstay. by right.
Qed.

(** *** Reconciliation *)

(** C1. Reconciliation exactness. From a state whose map is well formed,
    reconciling to [S1] and then to [S2] both return, and after the second
    pass: the keys of the line-decoration map are exactly the keys of [S2];
    a line of both snapshots keeps its decoration (the same handle, on the
    same marker, which is left as it was) with the properties built from
    an entry of [S2]; a line of [S1] only has lost its entry and its marker
    has had one more [destroy()]; a line of [S2] only has a decoration and
    a marker that did not exist before; and every decoration made by the
    pass belongs to a line of [S2] only. *)
Theorem reconcile_exact (s0 : State) (S1 S2 : BlameForEditor) :
  wf s0 →
  ∃ s1 s2,
    _updateBlame BLAME_DECORATION_CLASS S1 s0 = Some s1 ∧
    _updateBlame BLAME_DECORATION_CLASS S2 s1 = Some s2 ∧
    (∀ l, l ∈ JSMap.keys (lines s2) ↔ l ∈ JSMap.keys S2) ∧
    (∀ l, l ∈ JSMap.keys S1 → l ∈ JSMap.keys S2 →
       ∃ d mk m b item,
         JSMap.get l (lines s1) = Some d ∧ JSMap.get l (lines s2) = Some d ∧
         marker_of s1 d = Some mk ∧ marker_of s2 d = Some mk ∧
         marks s1 !! mk = Some m ∧ marks s2 !! mk = Some m ∧
         (l, b) ∈ S2 ∧ _createGutterItem b (longestBlame_of S2) s1 = Some item ∧
         properties_at s2 d = Some (properties_of s1 item)) ∧
    (∀ l, l ∈ JSMap.keys S1 → l ∉ JSMap.keys S2 →
       ∃ d mk m,
         JSMap.get l (lines s1) = Some d ∧ JSMap.get l (lines s2) = None ∧
         marker_of s1 d = Some mk ∧
         marks s1 !! mk = Some m ∧ marks s2 !! mk = Some (Marker_destroy m)) ∧
    (∀ l, l ∉ JSMap.keys S1 → l ∈ JSMap.keys S2 →
       ∃ d mk,
         JSMap.get l (lines s2) = Some d ∧ length (decs s1) ≤ d ∧
         marker_of s2 d = Some mk ∧ length (marks s1) ≤ mk ∧
         marks s2 !! mk = Some {| marker_line := l; marker_destroy_calls := 0 |}) ∧
    (∀ d, length (decs s1) ≤ d → d < length (decs s2) →
       ∃ l, (l ∉ JSMap.keys S1) ∧ l ∈ JSMap.keys S2 ∧
            JSMap.get l (lines s2) = Some d).
Proof.
  intros Hwf0.
  destruct (updateBlame_pass S1 s0 Hwf0) as (s1 & Hrun1 & P1).
  pose proof (pass_wf _ _ _ P1) as Hwf1.
  destruct (updateBlame_pass S2 s1 Hwf1) as (s2 & Hrun2 & P2).
  exists s1, s2. split; [done|]. split; [done|].
  assert (Hin1 : ∀ l, l ∈ JSMap.keys S1 →
            ∃ d mk m, JSMap.get l (lines s1) = Some d ∧ marker_of s1 d = Some mk ∧
                      marks s1 !! mk = Some m).
  { intros l Hl. apply (pass_keys _ _ _ P1), JSMapFacts.elem_of_keys in Hl as [d Hd].
    destruct Hwf1 as [W1 _]. destruct (W1 _ _ Hd) as (mk & Hmk & Hlt).
    apply lookup_lt_is_Some in Hlt as [m Hm]. by exists d, mk, m. }
  assert (Hout1 : ∀ l, l ∉ JSMap.keys S1 → JSMap.get l (lines s1) = None).
  { intros l Hl. apply JSMapFacts.not_elem_of_keys. by rewrite (pass_keys _ _ _ P1). }
  split; [apply P2|]. split; [|split; [|split]].
  - intros l Hl1 Hl2. destruct (Hin1 l Hl1) as (d & mk & m & Hd & Hmk & Hm).
    destruct (pass_kept _ _ _ P2 l d mk Hd Hmk Hl2)
      as (Hd2 & Hmk2 & Hm2 & b & item & Hb & Hit & Hp).
    exists d, mk, m, b, item. rewrite Hm2. done.
  - intros l Hl1 Hl2. destruct (Hin1 l Hl1) as (d & mk & m & Hd & Hmk & Hm).
    destruct (pass_removed _ _ _ P2 l d mk Hd Hmk Hl2) as (Hd2 & Hm2).
    exists d, mk, m. rewrite Hm2, Hm. done.
  - intros l Hl1 Hl2. apply (pass_new _ _ _ P2); [by apply Hout1 | done].
  - intros d H1 H2. destruct (pass_created _ _ _ P2 d H1 H2) as (l & Hl2 & Hnone & Hd).
    exists l. split; [|done].
    apply JSMapFacts.not_elem_of_keys in Hnone.
    by rewrite (pass_keys _ _ _ P1) in Hnone.
Qed.



(** C5. Width computation. The longest label of the example snapshot is
    12 and reconciling it sets the gutter width to "12ch". In general the
    label of an entry is the length of its author, plus the length of its
    changeset and 1 when the changeset is a non-empty string; the width is
    the greatest label of the snapshot (0 for none), rendered in [ch]. *)
Theorem width_computation :
  (∀ l1 l2, longestBlame_of (alice_bob l1 l2) = 12%Z) ∧
  (∀ l1 l2 s, ∃ s', _updateBlame BLAME_DECORATION_CLASS (alice_bob l1 l2) s = Some s' ∧
                    gutter_style_width (_gutter s') = Some "12ch") ∧
  (∀ a c r, blameLength {| author := a; changeset := Some (String c r) |} =
            (JS.strlen a + (JS.strlen (String c r) + 1))%Z) ∧
  (∀ a, blameLength {| author := a; changeset := None |} = JS.strlen a) ∧
  (∀ S : BlameForEditor,
     Forall (λ e, (blameLength e.2 ≤ longestBlame_of S)%Z) S ∧
     (longestBlame_of S = 0%Z ∨
      Exists (λ e, blameLength e.2 = longestBlame_of S) S)) ∧
  (∀ S s, ∃ s', _updateBlame BLAME_DECORATION_CLASS S s = Some s' ∧
                gutter_style_width (_gutter s') =
                  Some (JS.number_to_string (longestBlame_of S) +:+ "ch")).
Proof.
  split; [done|]. split; [|split; [done|split; [done|split]]].
  - intros l1 l2 s.
    destruct (updateBlame_returns (alice_bob l1 l2) s) as (s' & Hrun & Hw & _).
    by exists s'.
  - intros S. split; [apply snapshot_fits|].
    destruct (longer_attained (JSMap.values S) 0%Z) as [H|H]; [by left|right].
    apply Exists_exists in H as (b & Hb & Hlen).
    apply list_elem_of_fmap in Hb as (e & -> & He).
    apply Exists_exists. by exists e.
  - intros S s. destruct (updateBlame_returns S s) as (s' & Hrun & Hw & _).
    by exists s'.
Qed.

(** *** The destroy race *)

(** [_cleanUpLoadingSpinner] touches the spinner fields, the gutter's
    children and the pending timeouts, and nothing else. *)
Lemma cleanUp_fields (s : State) :
  let s' := _cleanUpLoadingSpinner s in
  _isDestroyed (this s') = _isDestroyed (this s) ∧
  _changesetSpanClassName (this s') = _changesetSpanClassName (this s) ∧
  lines s' = lines s ∧
  _loadingSpinnerIsPending (this s') = false ∧
  _loadingSpinnerDiv (this s') = None ∧
  _loadingSpinnerTimeoutId (this s') = _loadingSpinnerTimeoutId (this s) ∧
  _editor s' = _editor s ∧
  gutter_destroy_calls (_gutter s') = gutter_destroy_calls (_gutter s).
Proof.
  destruct s as [[? ? ? pending div ?] ? ? ?]. unfold _cleanUpLoadingSpinner.
  destruct pending, div; simpl; done.
Qed.

(** The last loop of [destroy] changes markers only. *)
Lemma destroyMarkers_frame (ds : list nat) :
  ∀ s, let s' := foldl (λ s d, with_editor (destroy_marker_of d) s) s ds in
       this s' = this s ∧ _gutter s' = _gutter s ∧ env s' = env s ∧
       decs s' = decs s ∧
       editor_isDestroyed (_editor s') = editor_isDestroyed (_editor s) ∧
       editor_path (_editor s') = editor_path (_editor s).
Proof.
  induction ds as [|d ds IH]; intros s; [done|].
  simpl. destruct (IH (with_editor (destroy_marker_of d) s))
    as (-> & -> & -> & -> & -> & ->).
  simpl. unfold destroy_marker_of. by destruct (decs s !! d).
Qed.

Lemma handle_destroyed (ev : Event) (s : State) :
  _isDestroyed (this s) = true → _isDestroyed (this (handle ev s)) = true.
Proof.
  intros H. destruct ev as [e url|id|]; simpl.
  - destruct (gutter_click_listener (_gutter s)); [|done].
    destruct (_onClick e); [done|].
    unfold _onClick_resume, JS.if_truthy. by destruct url as [[|c r]|].
  - by case_decide.
  - unfold destroy.
    set (s1 := if editor_isDestroyed _ then _ else _).
    destruct (destroyMarkers_frame (JSMap.values (lines s1)) s1) as (-> & _).
    destruct (cleanUp_fields (with_this (set_isDestroyed true) s)) as (Hc & _).
    unfold s1. by destruct (editor_isDestroyed _).
Qed.

Lemma destroy_destroyed (s : State) : _isDestroyed (this (destroy s)) = true.
Proof.
  change (destroy s) with (handle DestroyCalled (with_this (set_isDestroyed true) s)).
  by apply handle_destroyed.
Qed.

(** C4. Destroy race. Once [destroy()] has run, whatever happens to the
    gutter before the fetch resolves (clicks, the spinner timeout, further
    [destroy()] calls), the continuation of [_fetchAndDisplayBlame] returns
    and leaves the whole state as it finds it: no change to the
    line-decoration map, no width update. *)
Theorem destroy_race (s : State) (events : list Event) (newBlame : BlameForEditor) :
  let s' := foldl (λ s ev, handle ev s) (destroy s) events in
  _fetchAndDisplayBlame_resume BLAME_DECORATION_CLASS newBlame s' = Some s'.
Proof.
  simpl. unfold _fetchAndDisplayBlame_resume.
  assert (H : _isDestroyed (this (foldl (λ s ev, handle ev s) (destroy s) events))
              = true); [|by rewrite H].
  generalize (destroy_destroyed s). generalize (destroy s). clear s.
  induction events as [|ev events IH]; intros s H; [done|].
  simpl. by apply IH, handle_destroyed.
Qed.

End Reconcile.

(** *** Destroying the gutter *)

(** How many decorations of [ds] sit on the marker [mk]. *)
Definition references (s : State) (mk : nat) (ds : list nat) : nat :=
  length (filter (λ d, marker_of s d = Some mk) ds).

Lemma marker_of_destroy_marker s d d' :
  marker_of (with_editor (destroy_marker_of d) s) d' = marker_of s d'.
Proof.
  unfold marker_of. simpl. unfold destroy_marker_of. by destruct (decs s !! d).
Qed.

Lemma marks_destroy_marker s d :
  marks (with_editor (destroy_marker_of d) s) =
    match marker_of s d with
    | Some mk => alter Marker_destroy mk (marks s)
    | None => marks s
    end.
Proof.
  unfold marker_of. simpl. unfold destroy_marker_of. by destruct (decs s !! d).
Qed.

Lemma destroyMarkers_marks (ds : list nat) :
  ∀ s, marks (foldl (λ s d, with_editor (destroy_marker_of d) s) s ds) =
       imap (λ mk m, Nat.iter (references s mk ds) Marker_destroy m) (marks s).
Proof.
  induction ds as [|d ds IH]; intros s.
  - apply list_eq. intros i. rewrite list_lookup_imap. simpl. by destruct (_ !! i).
  - simpl. rewrite IH. apply list_eq. intros i. rewrite !list_lookup_imap.
    rewrite marks_destroy_marker. unfold references.
    rewrite filter_cons.
    assert (Hsame : filter (λ d0, marker_of (with_editor (destroy_marker_of d) s) d0
                                  = Some i) ds
                    = filter (λ d0, marker_of s d0 = Some i) ds).
    { apply list_filter_iff. intros d0. by rewrite marker_of_destroy_marker. }
    rewrite Hsame. destruct (marker_of s d) as [mk|] eqn:Hmk.
    + rewrite list_lookup_alter. destruct (decide (mk = i)) as [->|Hne].
      * rewrite decide_True by done. destruct (marks s !! i); [|done]. simpl.
        by rewrite <- Nat.iter_succ_r.
      * rewrite decide_False by congruence. done.
    + by rewrite decide_False.
Qed.

Lemma destroy_clean (s : State) :
  _isDestroyed (this s) = true → _loadingSpinnerIsPending (this s) = false →
  _loadingSpinnerDiv (this s) = None →
  destroy s =
    let s1 := if editor_isDestroyed (_editor s) then s
              else with_gutter Gutter_destroy s in
    foldl (λ s d, with_editor (destroy_marker_of d) s) s1 (JSMap.values (lines s1)).
Proof.
  destruct s as [[] ? ? ?]. simpl. intros -> -> ->. done.
Qed.

Lemma destroy_lines (s : State) : lines (destroy s) = lines s.
Proof.
  unfold destroy. set (s1 := if editor_isDestroyed _ then _ else _).
  destruct (destroyMarkers_frame (JSMap.values (lines s1)) s1) as (-> & _).
  destruct (cleanUp_fields (with_this (set_isDestroyed true) s)) as (_ & _ & Hl & _).
  unfold s1. destruct (editor_isDestroyed _); simpl; by rewrite Hl.
Qed.

Lemma destroy_marks (s : State) :
  marks (destroy s) =
    imap (λ mk m, Nat.iter (references s mk (JSMap.values (lines s))) Marker_destroy m)
         (marks s).
Proof.
  unfold destroy. set (s1 := if editor_isDestroyed _ then _ else _).
  rewrite destroyMarkers_marks.
  destruct (cleanUp_fields (with_this (set_isDestroyed true) s))
    as (_ & _ & Hl & _ & _ & _ & He & _).
  assert (H1 : lines s1 = lines s ∧ _editor s1 = _editor s).
  { unfold s1. destruct (editor_isDestroyed _); simpl; by rewrite Hl, He. }
  destruct H1 as [-> He1]. rewrite He1. unfold references, marker_of. by rewrite He1.
Qed.

(** C6, as the code has it. [destroy()] calls [destroy()] on the marker of
    every decoration of the line-decoration map, once for each decoration
    that sits on it, and leaves the map as it was: the entries stay. *)
Theorem destroy_keeps_entries (s : State) :
  lines (destroy s) = lines s ∧
  marks (destroy s) =
    imap (λ mk m, Nat.iter (references s mk (JSMap.values (lines s))) Marker_destroy m)
         (marks s).
Proof. split; [apply destroy_lines | apply destroy_marks]. Qed.

(** What a second [destroy()] does: the fields of the instance, the
    decorations and the environment stay, [gutter.destroy()] is called once
    more unless the editor is destroyed, and every marker of the map gets
    its [destroy()] calls once more. *)
Lemma destroy_again (s : State) :
  let s1 := destroy s in
  let s2 := destroy s1 in
  this s2 = this s1 ∧ env s2 = env s1 ∧ decs s2 = decs s1 ∧
  _gutter s2 = (if editor_isDestroyed (_editor s1) then _gutter s1
                else Gutter_destroy (_gutter s1)) ∧
  marks s2 =
    imap (λ mk m, Nat.iter (references s1 mk (JSMap.values (lines s1))) Marker_destroy m)
         (marks s1).
Proof.
  intros s1 s2.
  assert (Hclean : _isDestroyed (this s1) = true ∧
                   _loadingSpinnerIsPending (this s1) = false ∧
                   _loadingSpinnerDiv (this s1) = None).
  { unfold s1, destroy. set (t := if editor_isDestroyed _ then _ else _).
    destruct (destroyMarkers_frame (JSMap.values (lines t)) t) as (-> & _).
    destruct (cleanUp_fields (with_this (set_isDestroyed true) s))
      as (Hd & _ & _ & Hp & Hv & _).
    unfold t. by destruct (editor_isDestroyed _). }
  destruct Hclean as (H1 & H2 & H3).
  pose proof (destroy_clean s1 H1 H2 H3) as E. fold s2 in E. simpl in E.
  set (t := if editor_isDestroyed _ then _ else _) in E.
  destruct (destroyMarkers_frame (JSMap.values (lines t)) t) as (Ht & Hg & Hv & Hd & _).
  simpl in Ht, Hg, Hv, Hd. rewrite <- E in Ht, Hg, Hv, Hd.
  rewrite Ht, Hg, Hv, Hd.
  split; [|split; [|split; [|split]]]; [| | | |apply destroy_marks].
  all: unfold t; by destruct (editor_isDestroyed _).
Qed.

(** The constructor leaves a well-formed state, whatever the editor holds. *)
Lemma wf_constructor (gutterName : string) (editor : Editor)
    (blameProvider : BlameProvider) (v : Env) :
  wf (constructor gutterName editor blameProvider v).
Proof.
  assert (H : lines (constructor gutterName editor blameProvider v) = []).
  { unfold constructor. by destruct (has_getUrlForRevision blameProvider). }
  split; intros *; rewrite H; discriminate.
Defined.


(** *** The gutter item *)

Lemma nbsp_length (n : nat) :
  String.length (Nat.iter n (String.append JS.nbsp) EmptyString) = n.
Proof.
  induction n as [|n IH]; [done|].
  change (S (String.length (Nat.iter n (String.append JS.nbsp) EmptyString)) = S n).
  by rewrite IH.
Qed.

(** C10. Padding. For an entry of a snapshot with a non-empty changeset,
    the count handed to [repeat] by [_createGutterItem], taken with the
    longest label of that same snapshot, is at least 1: [repeat] does not
    throw, and the item is the author, at least one no-break space, and the
    changeset. *)
Theorem padding_at_least_one (S : BlameForEditor) (l : nat) (b : BlameInfo)
    (c : string) (s : State) :
  (l, b) ∈ S → changeset b = Some c → c ≠ EmptyString →
  ∃ n : nat,
    1 ≤ n ∧
    Z.of_nat n = (longestBlame_of S - JS.strlen (author b) - JS.strlen c)%Z ∧
    JS.repeat JS.nbsp (longestBlame_of S - JS.strlen (author b) - JS.strlen c) =
      Some (Nat.iter n (String.append JS.nbsp) EmptyString) ∧
    String.length (Nat.iter n (String.append JS.nbsp) EmptyString) = n ∧
    _createGutterItem b (longestBlame_of S) s =
      Some [SpanElement {| innerText := author b; className := None; dataset := [] |};
            TextNode (Nat.iter n (String.append JS.nbsp) EmptyString);
            SpanElement {| innerText := c;
                           className := Some (_changesetSpanClassName (this s));
                           dataset := [(HG_CHANGESET_DATA_ATTRIBUTE, c)] |}].
Proof.
  intros Hin Hc Hne. pose proof (blameLength_le_longest S l b Hin) as Hle.
  unfold blameLength, _createGutterItem in *. rewrite Hc in *.
  destruct c as [|ch r]; [done|]. simpl in *.
  set (k := (longestBlame_of S - JS.strlen (author b) - JS.strlen (String ch r))%Z) in *.
  assert (Hk : (1 ≤ k)%Z) by (unfold k; lia).
  exists (Z.to_nat k). split; [lia|]. split; [lia|].
  rewrite repeat_ok by lia. split; [done|]. split; [apply nbsp_length | done].
Qed.

(** *** Clicks *)

(** C8. Click without a URL. A click on an element that carries a non-empty
    changeset asks the provider for its URL; when the answer is [null], one
    dismissable warning that quotes the changeset is added, nothing is
    opened, and the click is tracked with the editor's path and no URL. *)
Theorem click_without_url (s : State) (e : MouseEvent) (t : Span) (c : string) :
  target e = Some t →
  dataset_get HG_CHANGESET_DATA_ATTRIBUTE (dataset t) = Some c →
  c ≠ EmptyString →
  _onClick e = AwaitUrlForRevision c ∧
  notifications (env (_onClick_resume c None s)) =
    notifications (env s) ++ [Warning ("No URL found for " +:+ c +:+ ".") true] ∧
  opened_external (env (_onClick_resume c None s)) = opened_external (env s) ∧
  tracked (env (_onClick_resume c None s)) =
    tracked (env s) ++ [{| track_name := "blame-gutter-click-revision";
                           track_editorPath := editor_path (_editor s);
                           track_url := None |}] ∧
  this (_onClick_resume c None s) = this s ∧
  _editor (_onClick_resume c None s) = _editor s ∧
  _gutter (_onClick_resume c None s) = _gutter s.
Proof.
  intros Ht Hd Hne. split; [|done].
  unfold _onClick. rewrite Ht, Hd. by destruct c.
Qed.

(** *** Instances to run the statements on *)

Definition editor0 : Editor :=
  {| editor_isDestroyed := false;
     editor_path := Some "/repo/file.js";
     markers := [];
     decorations := [] |}.

Definition env0 : Env :=
  {| notifications := [];
     opened_external := [];
     tracked := [];
     timeouts := [];
     next_timeout := 0 |}.

(** A gutter whose fetch is pending, and the same once the example
    snapshot has been rendered at lines 0 and 1. *)
Definition fetching : State :=
  constructor "nuclide-blame" editor0 {| has_getUrlForRevision := true |} env0.

Definition rendered : option State :=
  _fetchAndDisplayBlame_resume "blame-decoration" (alice_bob 0 1) fetching.

Definition bob_carol : BlameForEditor :=
  [(1, {| author := "bob"; changeset := Some "fe12" |});
   (5, {| author := "carol"; changeset := None |})].

Definition changeset_click : MouseEvent :=
  {| target := Some {| innerText := "abc123";
                       className := Some CHANGESET_CSS_CLASS;
                       dataset := [(HG_CHANGESET_DATA_ATTRIBUTE, "abc123")] |} |}.

Lemma wf_fetching : wf fetching.
Proof. apply wf_constructor. Defined.

Lemma reconcile_exact_witness :
  wf fetching ∧
  ∃ s1 s2,
    _updateBlame "blame-decoration" (alice_bob 0 1) fetching = Some s1 ∧
    _updateBlame "blame-decoration" bob_carol s1 = Some s2 ∧
    (∀ l, l ∈ JSMap.keys (lines s2) ↔ l ∈ JSMap.keys bob_carol).
Proof.
  split; [exact wf_fetching|].
  destruct (reconcile_exact "blame-decoration" fetching (alice_bob 0 1) bob_carol
              wf_fetching) as (s1 & s2 & H1 & H2 & H3 & _).
  exists s1, s2. split; [exact H1|]. split; [exact H2 | exact H3].
Defined.

Lemma padding_at_least_one_witness :
  (0, {| author := "alice"; changeset := Some "abc123" |}) ∈ alice_bob 0 1 ∧
  ∃ n : nat,
    1 ≤ n ∧
    Z.of_nat n = (longestBlame_of (alice_bob 0 1) - JS.strlen "alice" - JS.strlen "abc123")%Z.
Proof.
  assert (Hin : (0, {| author := "alice"; changeset := Some "abc123" |})
                ∈ alice_bob 0 1) by left.
  split; [exact Hin|].
  destruct (padding_at_least_one (alice_bob 0 1) 0
              {| author := "alice"; changeset := Some "abc123" |} "abc123" fetching
              Hin eq_refl ltac:(discriminate)) as (n & H1 & H2 & _).
  exists n. split; [exact H1 | exact H2].
Defined.

Lemma click_without_url_witness :
  _onClick changeset_click = AwaitUrlForRevision "abc123" ∧
  notifications (env (_onClick_resume "abc123" None fetching)) =
    [Warning "No URL found for abc123." true] ∧
  opened_external (env (_onClick_resume "abc123" None fetching)) = [] ∧
  tracked (env (_onClick_resume "abc123" None fetching)) =
    [{| track_name := "blame-gutter-click-revision";
        track_editorPath := Some "/repo/file.js";
        track_url := None |}].
Proof.
  destruct (click_without_url fetching changeset_click
              {| innerText := "abc123";
                 className := Some CHANGESET_CSS_CLASS;
                 dataset := [(HG_CHANGESET_DATA_ATTRIBUTE, "abc123")] |}
              "abc123" eq_refl eq_refl ltac:(discriminate))
    as (H1 & H2 & H3 & H4 & _).
  split; [exact H1|]. split; [exact H2|]. split; [exact H3 | exact H4].
Defined.

(** C6, as the spec has it, fails: after [destroy()] the map of the
    rendered gutter still holds both lines, so it is not empty, while both
    markers have had their [destroy()]. *)
Lemma destroy_leaves_map_counterexample :
  ∃ s, rendered = Some s ∧
       lines s = [(0, 0); (1, 1)] ∧
       lines (destroy s) = [(0, 0); (1, 1)] ∧
       lines (destroy s) ≠ [] ∧
       marker_destroy_calls <$> marks (destroy s) = [1; 1].
Proof. eexists. split; [reflexivity|]. repeat split. discriminate. Qed.

End BlameGutterSpec.

(** * Properties of the diagnostics provider base *)

Module DiagnosticsProviderBaseSpec.
Import DiagnosticsProviderBase.

(** *** Subscriptions *)

(** The active subscriptions made since the dispatcher had made [base]. *)
Definition own_active (base : nat) (d : list DispatcherEvent) : list nat :=
  filter (λ h, base ≤ h) (active d).

(** Whenever a subscription was made (since [base]), none was active. *)
Fixpoint no_overlap (base : nat) (d : list DispatcherEvent) : Prop :=
  match d with
  | [] => True
  | Subscribed _ :: d' => own_active base d' = [] ∧ no_overlap base d'
  | Disposed _ :: d' => no_overlap base d'
  end.

Section Filters.
Context {A : Type} (P Q : A → Prop) `{!∀ x, Decision (P x)} `{!∀ x, Decision (Q x)}.

Lemma filter_comm (l : list A) : filter P (filter Q l) = filter Q (filter P l).
Proof.
  induction l as [|x l IH]; [done|].
  rewrite !filter_cons.
  destruct (decide (Q x)), (decide (P x)); rewrite ?filter_cons;
    repeat case_decide; try done; by rewrite IH.
Qed.

Lemma filter_none (l : list A) : Forall (λ x, ¬ P x) l → filter P l = [].
Proof.
  induction 1 as [|x l Hx _ IH]; [done|]. by rewrite filter_cons_False.
Qed.
End Filters.

Lemma active_lt (d : list DispatcherEvent) :
  Forall (λ h, h < subscriptions_made d) (active d).
Proof.
  induction d as [|[what|h] d IH]; simpl.
  - constructor.
  - constructor; [lia|]. eapply Forall_impl; [exact IH|]. simpl. lia.
  - apply Forall_forall. intros x [_ Hx]%list_elem_of_filter.
    rewrite Forall_forall in IH. by apply IH.
Qed.

Lemma own_active_none (base : nat) (d : list DispatcherEvent) :
  subscriptions_made d ≤ base → own_active base d = [].
Proof.
  intros Hle. apply filter_none. eapply Forall_impl; [apply active_lt|].
  simpl. lia.
Qed.

Lemma no_overlap_before (base : nat) (d : list DispatcherEvent) :
  subscriptions_made d ≤ base → no_overlap base d.
Proof.
  induction d as [|[what|h] d IH]; simpl; intros Hle; [done| |by apply IH].
  split; [apply own_active_none; lia | apply IH; lia].
Qed.

Lemma own_active_disposed (base h : nat) (d : list DispatcherEvent) :
  own_active base d = [h] → own_active base (Disposed h :: d) = [].
Proof.
  unfold own_active. simpl. intros H.
  rewrite (filter_comm (λ x, base ≤ x) (λ x, x ≠ h)), H.
  by rewrite filter_cons_False by (intros Hne; by apply Hne).
Qed.

(** Since the dispatcher had made [base] subscriptions, the instance holds
    the only active one, and none was made while another was active. *)
Definition subscribed_once (base : nat) (s : State) : Prop :=
  (∃ h, _currentEventSubscription (this s) = Some h ∧
        own_active base (_textEventDispatcher s) = [h]) ∧
  no_overlap base (_textEventDispatcher s) ∧
  base ≤ subscriptions_made (_textEventDispatcher s).

Lemma subscribe_from_none (base : nat) (b : bool) (s : State) :
  _currentEventSubscription (this s) = None →
  own_active base (_textEventDispatcher s) = [] →
  no_overlap base (_textEventDispatcher s) →
  base ≤ subscriptions_made (_textEventDispatcher s) →
  subscribed_once base (_subscribeToTextEditorEvent b s).
Proof.
  intros Hc Ha Hn Hb. unfold _subscribeToTextEditorEvent, _disposeEventSubscription.
  rewrite Hc. unfold subscribed_once, own_active in *.
  destruct b, (_allGrammarScopes (this s)); simpl;
    (split; [eexists; split; [done|]; by rewrite filter_cons_True, Ha by done
            | split; [done | lia]]).
Qed.

Lemma disposeEventSubscription_twice (s : State) :
  _disposeEventSubscription (_disposeEventSubscription s) = _disposeEventSubscription s.
Proof.
  unfold _disposeEventSubscription.
  destruct (_currentEventSubscription (this s)) eqn:E; simpl; [done | by rewrite E].
Qed.

Lemma subscribe_again (base : nat) (b : bool) (s : State) :
  subscribed_once base s → subscribed_once base (_subscribeToTextEditorEvent b s).
Proof.
  intros ((h & Hc & Ha) & Hn & Hb).
  assert (E : _subscribeToTextEditorEvent b s =
              _subscribeToTextEditorEvent b (_disposeEventSubscription s)).
  { unfold _subscribeToTextEditorEvent. by rewrite disposeEventSubscription_twice. }
  rewrite E. unfold _disposeEventSubscription. rewrite Hc.
  apply subscribe_from_none; simpl; [done| |done|done].
  by apply own_active_disposed.
Qed.

(** C3. Single active subscription. After the constructor and any sequence
    of [setRunOnTheFly] calls, the instance holds one subscription, which is
    the only active one among those made since the dispatcher was handed
    over; and each of those was made at a moment when none of them was
    active, the previous one having been disposed of first. *)
Theorem single_active_subscription (options : Options) (d0 : list DispatcherEvent)
    (calls : list bool) :
  let s := foldl (λ s runOnTheFly, setRunOnTheFly runOnTheFly s)
                 (constructor options d0) calls in
  (∃ h, _currentEventSubscription (this s) = Some h ∧
        own_active (subscriptions_made d0) (_textEventDispatcher s) = [h]) ∧
  no_overlap (subscriptions_made d0) (_textEventDispatcher s).
Proof.
  simpl.
  assert (H : subscribed_once (subscriptions_made d0)
                (foldl (λ s runOnTheFly, setRunOnTheFly runOnTheFly s)
                       (constructor options d0) calls)).
  { assert (H0 : subscribed_once (subscriptions_made d0) (constructor options d0)).
    { apply subscribe_from_none; simpl;
        [done | by apply own_active_none | by apply no_overlap_before | done]. }
    revert H0. generalize (constructor options d0).
    induction calls as [|b calls IH]; intros s Hs; [done|].
    simpl. apply IH. by apply subscribe_again. }
  destruct H as (H1 & H2 & _). by split.
Qed.

(** *** Subscriber hooks *)

Lemma handlers_after_on (eventName : string) (handler : nat) (e : Emitter) :
  disposed e = false →
  ∃ disposable e',
    Emitter_on eventName handler e = Some (disposable, e') ∧
    disposed e' = false ∧
    handlers eventName e' = handlers eventName e ++ [handler].
Proof.
  intros Hd. unfold Emitter_on. rewrite Hd. eexists _, _. split; [done|].
  split; [done|]. unfold handlers at 1. simpl. by rewrite lookup_insert_eq.
Qed.

(** C2, as the code has it. On an instance whose emitter is not disposed,
    every [onMessageUpdate] and every [onMessageInvalidation], the first as
    any later one, returns, adds the callback to the handlers of its channel
    and then calls the hook of that channel once, with the callback; the
    emitter stays undisposed and the hooks stay the same, so the next
    registration does the same again. *)
Theorem hook_on_every_registration (s : State) (callback : nat) :
  disposed (_emitter (this s)) = false →
  (∃ disposable s',
     onMessageUpdate callback s = Some (disposable, s') ∧
     handlers UPDATE_EVENT (_emitter (this s')) =
       handlers UPDATE_EVENT (_emitter (this s)) ++ [callback] ∧
     invocations s' =
       invocations s ++
       [HookCall (_newUpdateSubscriberCallback (this s)) callback
                 (handlers UPDATE_EVENT (_emitter (this s)) ++ [callback])] ∧
     disposed (_emitter (this s')) = false ∧
     _newUpdateSubscriberCallback (this s') = _newUpdateSubscriberCallback (this s) ∧
     _newInvalidateSubscriberCallback (this s') =
       _newInvalidateSubscriberCallback (this s)) ∧
  (∃ disposable s',
     onMessageInvalidation callback s = Some (disposable, s') ∧
     handlers INVALIDATE_EVENT (_emitter (this s')) =
       handlers INVALIDATE_EVENT (_emitter (this s)) ++ [callback] ∧
     invocations s' =
       invocations s ++
       [HookCall (_newInvalidateSubscriberCallback (this s)) callback
                 (handlers INVALIDATE_EVENT (_emitter (this s)) ++ [callback])] ∧
     disposed (_emitter (this s')) = false ∧
     _newUpdateSubscriberCallback (this s') = _newUpdateSubscriberCallback (this s) ∧
     _newInvalidateSubscriberCallback (this s') =
       _newInvalidateSubscriberCallback (this s)).
Proof.
  intros Hd. split.
  - destruct (handlers_after_on UPDATE_EVENT callback _ Hd) as (dp & e' & Hon & Hd' & Hh).
    unfold onMessageUpdate. rewrite Hon. simpl. eexists _, _. split; [done|].
    simpl. by rewrite Hh.
  - destruct (handlers_after_on INVALIDATE_EVENT callback _ Hd)
      as (dp & e' & Hon & Hd' & Hh).
    unfold onMessageInvalidation. rewrite Hon. simpl. eexists _, _. split; [done|].
    simpl. by rewrite Hh.
Qed.

(** An instance with a hook on the update channel only. *)
Definition options0 : Options :=
  {| onTextEditorEvent := Some 1;
     onNewUpdateSubscriber := Some 2;
     onNewInvalidateSubscriber := None;
     grammarScopes := Some ["source.js"; "source.python"];
     enableForAllGrammars := false;
     shouldRunOnTheFly := true |}.

Definition provider0 : State := constructor options0 [].

Lemma hook_on_every_registration_witness :
  disposed (_emitter (this provider0)) = false ∧
  ∃ disposable s',
    onMessageUpdate 7 provider0 = Some (disposable, s') ∧
    invocations s' = [HookCall (Bound 2) 7 [7]].
Proof.
  split; [reflexivity|].
  destruct (hook_on_every_registration provider0 7 eq_refl)
    as ((dp & s' & H1 & _ & H2 & _) & _).
  exists dp, s'. split; [exact H1 | exact H2].
Defined.

(** C2, as the spec has it, fails: the second registration on the update
    channel calls the hook a second time, and each call comes when the
    callback is among the handlers already. *)
Lemma hook_called_again_counterexample :
  ∃ d1 s1 d2 s2,
    onMessageUpdate 7 provider0 = Some (d1, s1) ∧
    onMessageUpdate 8 s1 = Some (d2, s2) ∧
    invocations s2 = [HookCall (Bound 2) 7 [7]; HookCall (Bound 2) 8 [7; 8]].
Proof. eexists _, _, _, _. split; [reflexivity|]. split; reflexivity. Qed.

(** *** Disposal *)

Lemma dispose_twice (s : State) : dispose (dispose s) = dispose s.
Proof.
  destruct s as [[? ? ? ? ? ? ? current] ? ?].
  unfold dispose, _disposeEventSubscription. by destruct current.
Qed.

End DiagnosticsProviderBaseSpec.

(** * Disposing twice *)

Module Lifecycle.

(** C9, as the code has it. A second [dispose()] of the provider base
    changes nothing: the emitter and the disposables are disposed already
    and no subscription is left to dispose of. A second [destroy()] of the
    blame gutter leaves the fields of the instance, the decorations and the
    environment as they are, but it is not guarded: it calls
    [gutter.destroy()] once more unless the editor is destroyed, and
    [destroy()] once more on the marker of every decoration of the map. *)
Theorem dispose_and_destroy_twice :
  (∀ p : DiagnosticsProviderBase.State,
     DiagnosticsProviderBase.dispose (DiagnosticsProviderBase.dispose p) =
     DiagnosticsProviderBase.dispose p) ∧
  (∀ s : BlameGutter.State,
     let s1 := BlameGutter.destroy s in
     let s2 := BlameGutter.destroy s1 in
     BlameGutter.this s2 = BlameGutter.this s1 ∧
     BlameGutter.env s2 = BlameGutter.env s1 ∧
     BlameGutter.decorations (BlameGutter._editor s2) =
       BlameGutter.decorations (BlameGutter._editor s1) ∧
     BlameGutter._gutter s2 =
       (if BlameGutter.editor_isDestroyed (BlameGutter._editor s1)
        then BlameGutter._gutter s1
        else BlameGutter.Gutter_destroy (BlameGutter._gutter s1)) ∧
     BlameGutter.markers (BlameGutter._editor s2) =
       imap (λ mk m,
               Nat.iter (BlameGutterSpec.references s1 mk
                           (JSMap.values
                              (BlameGutter._bufferLineToDecoration (BlameGutter.this s1))))
                        BlameGutter.Marker_destroy m)
            (BlameGutter.markers (BlameGutter._editor s1))).
Proof.
  split.
  - apply DiagnosticsProviderBaseSpec.dispose_twice.
  - apply BlameGutterSpec.destroy_again.
Qed.

(** C9, as the spec has it, fails for the blame gutter: on the rendered
    gutter the second [destroy()] calls [gutter.destroy()] a second time and
    [destroy()] a second time on both markers. *)
Lemma destroy_twice_counterexample :
  ∃ s, BlameGutterSpec.rendered = Some s ∧
       BlameGutter.gutter_destroy_calls (BlameGutter._gutter (BlameGutter.destroy s)) = 1 ∧
       BlameGutter.gutter_destroy_calls
         (BlameGutter._gutter (BlameGutter.destroy (BlameGutter.destroy s))) = 2 ∧
       BlameGutter.marker_destroy_calls <$>
         BlameGutter.markers (BlameGutter._editor (BlameGutter.destroy s)) = [1; 1] ∧
       BlameGutter.marker_destroy_calls <$>
         BlameGutter.markers
           (BlameGutter._editor (BlameGutter.destroy (BlameGutter.destroy s))) = [2; 2] ∧
       BlameGutter.destroy (BlameGutter.destroy s) ≠ BlameGutter.destroy s.
Proof.
  eexists. split; [reflexivity|]. repeat split. discriminate.
Qed.

End Lifecycle.

(** * More on the blame gutter *)

Module BlameGutterMore.
Import BlameGutter BlameGutterSpec.

(** *** Clicks *)

(** A resolved URL is opened, and nothing is notified; an empty string is
    no URL, and the user is warned as for [null]. Either way the click is
    tracked with what the provider answered. *)
Theorem click_with_url (s : State) (c : string) :
  (∀ ch r,
     let url := String ch r in
     opened_external (env (_onClick_resume c (Some url) s)) =
       opened_external (env s) ++ [url] ∧
     notifications (env (_onClick_resume c (Some url) s)) = notifications (env s) ∧
     tracked (env (_onClick_resume c (Some url) s)) =
       tracked (env s) ++ [{| track_name := "blame-gutter-click-revision";
                              track_editorPath := editor_path (_editor s);
                              track_url := Some url |}]) ∧
  opened_external (env (_onClick_resume c (Some EmptyString) s)) =
    opened_external (env s) ∧
  notifications (env (_onClick_resume c (Some EmptyString) s)) =
    notifications (env s) ++ [Warning ("No URL found for " +:+ c +:+ ".") true] ∧
  tracked (env (_onClick_resume c (Some EmptyString) s)) =
    tracked (env s) ++ [{| track_name := "blame-gutter-click-revision";
                           track_editorPath := editor_path (_editor s);
                           track_url := Some EmptyString |}].
Proof. by repeat split. Qed.

(** The provider is asked for a URL exactly when the click has a target
    that carries a non-empty changeset; any other click returns at once. *)
Theorem click_asks_provider_iff (e : MouseEvent) (c : string) :
  _onClick e = AwaitUrlForRevision c ↔
  c ≠ EmptyString ∧
  ∃ t, target e = Some t ∧
       dataset_get HG_CHANGESET_DATA_ATTRIBUTE (dataset t) = Some c.
Proof.
  unfold _onClick, JS.if_truthy. destruct (target e) as [t|].
  - destruct (dataset_get _ (dataset t)) as [[|ch r]|] eqn:E; split.
    + done.
    + intros (Hne & t' & ? & ?). simplify_eq.
    + intros [= <-]. split; [done|]. by exists t.
    + intros (Hne & t' & ? & ?). by simplify_eq.
    + done.
    + intros (_ & t' & ? & ?). simplify_eq.
  - split; [done|]. intros (_ & t' & ? & _). done.
Qed.



(** *** The gutter item *)

Definition node_length (n : Node) : Z :=
  match n with
  | SpanElement span => JS.strlen (innerText span)
  | TextNode data => JS.strlen data
  end.

Definition item_length (item : list Node) : Z :=
  foldr (λ n acc, (node_length n + acc)%Z) 0%Z item.

Lemma strlen_nbsp (n : nat) :
  JS.strlen (Nat.iter n (String.append JS.nbsp) EmptyString) = Z.of_nat n.
Proof. unfold JS.strlen. by rewrite nbsp_length. Qed.

(** [_createGutterItem] throws exactly when the entry has a non-empty
    changeset and [longestBlame] is less than the author and the changeset
    together. *)
Theorem createGutterItem_throws_iff (b : BlameInfo) (longestBlame : Z) (s : State) :
  _createGutterItem b longestBlame s = None ↔
  ∃ c, changeset b = Some c ∧ c ≠ EmptyString ∧
       (longestBlame < JS.strlen (author b) + JS.strlen c)%Z.
Proof.
  unfold _createGutterItem, JS.if_truthy, JS.repeat.
  destruct (changeset b) as [[|ch r]|].
  - split; [done|]. by intros (c & [= <-] & ? & _).
  - case_decide as Hk; simpl; split; try done.
    + intros _. exists (String ch r). split; [done|]. split; [done | lia].
    + intros (c & [= <-] & _ & Hlt). lia.
  - split; [done|]. by intros (c & ? & _).
Qed.

(** Right alignment: in the items of one snapshot, every entry with a
    changeset is as wide as the longest label, so the changesets end in the
    same column; an entry without changeset is as wide as its author. *)
Theorem items_right_aligned (S : BlameForEditor) (l : nat) (b : BlameInfo) (s : State) :
  (l, b) ∈ S →
  ∃ item,
    _createGutterItem b (longestBlame_of S) s = Some item ∧
    item_length item =
      (if JS.truthy (changeset b) then longestBlame_of S else JS.strlen (author b)).
Proof.
  intros Hin. pose proof (blameLength_le_longest S l b Hin) as Hle.
  unfold blameLength, _createGutterItem, JS.truthy, JS.if_truthy in *.
  destruct (changeset b) as [[|ch r]|].
  - eexists. split; [done|]. simpl. lia.
  - rewrite repeat_ok by lia. eexists. split; [done|].
    unfold item_length. simpl. rewrite strlen_nbsp. lia.
  - eexists. split; [done|]. simpl. lia.
Qed.


Lemma items_right_aligned_witness :
  ∃ item,
    _createGutterItem {| author := "alice"; changeset := Some "abc123" |}
      (longestBlame_of (alice_bob 0 1)) fetching = Some item ∧
    item_length item = 12%Z.
Proof.
  exact (items_right_aligned (alice_bob 0 1) 0
           {| author := "alice"; changeset := Some "abc123" |} fetching
           (list_elem_of_here _ _)).
Defined.

(** *** What a pass leaves alone *)

Lemma updateBlame_frame (cls : string) (S : BlameForEditor) (s : State) :
  ∃ s', _updateBlame cls S s = Some s' ∧
        this s' = set_bufferLineToDecoration (lines s') (this s) ∧
        _editor s' = set_decorations (decs s') (set_markers (marks s') (_editor s)) ∧
        _gutter s' =
          set_style_width (JS.number_to_string (longestBlame_of S) +:+ "ch") (_gutter s) ∧
        env s' = env (noticed S s).
Proof.
  destruct (setLines_fits cls _ S (snapshot_fits S) (noticed S s)) as (s1 & Hrun & Hf1).
  pose proof (removeLines_frame (outdated S s) s1) as Hf2.
  destruct (same_frame_trans _ _ _ Hf1 Hf2) as (Ht & He & Hg & Hv).
  eexists. split; [by apply updateBlame_unfold|]. simpl.
  rewrite Ht, He, Hg, Hv. unfold noticed. by case_decide.
Qed.

Lemma noticed_timeouts (S : BlameForEditor) (s : State) :
  timeouts (env (noticed S s)) = timeouts (env s).
Proof. unfold noticed. by case_decide. Qed.


(** *** The loading spinner *)

(** However often [_addLoadingSpinner] is called while the spinner is
    pending, one timeout is scheduled. *)
Theorem addLoadingSpinner_once (s : State) :
  _addLoadingSpinner (_addLoadingSpinner s) = _addLoadingSpinner s ∧
  _loadingSpinnerIsPending (this (_addLoadingSpinner s)) = true ∧
  timeouts (env (_addLoadingSpinner s)) =
    timeouts (env s) ++
    (if _loadingSpinnerIsPending (this s) then [] else [next_timeout (env s)]).
Proof.
  destruct s as [[? ? ? pending ? ?] ? ? ?]. unfold _addLoadingSpinner.
  destruct pending; simpl; [by rewrite app_nil_r | done].
Qed.

Lemma cleared_not_pending (id : nat) (ts : list nat) :
  id ∉ filter (λ t, Some t ≠ Some id) ts.
Proof. intros [H _]%list_elem_of_filter. by apply H. Qed.

Lemma cleanUp_pending (s : State) (id : nat) :
  _loadingSpinnerIsPending (this s) = true → _loadingSpinnerDiv (this s) = None →
  _loadingSpinnerTimeoutId (this s) = Some id →
  this (_cleanUpLoadingSpinner s) = set_loadingSpinnerIsPending false (this s) ∧
  _gutter (_cleanUpLoadingSpinner s) = _gutter s ∧
  timeouts (env (_cleanUpLoadingSpinner s)) =
    filter (λ t, Some t ≠ Some id) (timeouts (env s)).
Proof.
  destruct s as [[] ? ? ?]. simpl. by intros -> -> ->.
Qed.

Lemma cleanUp_visible (s : State) (div : string) :
  _loadingSpinnerIsPending (this s) = false → _loadingSpinnerDiv (this s) = Some div →
  this (_cleanUpLoadingSpinner s) = set_loadingSpinnerDiv None (this s) ∧
  gutter_children (_gutter (_cleanUpLoadingSpinner s)) =
    filter (λ c, c ≠ div) (gutter_children (_gutter s)).
Proof.
  destruct s as [[] ? ? ?]. simpl. by intros -> ->.
Qed.

Section Spinner.

Variables (cls gutterName : string) (editor : Editor) (blameProvider : BlameProvider)
          (v : Env).

Lemma constructed_fields :
  let s0 := constructor gutterName editor blameProvider v in
  this s0 =
    {| _isDestroyed := false;
       _changesetSpanClassName :=
         if has_getUrlForRevision blameProvider
         then CHANGESET_CSS_CLASS +:+ " " +:+ CLICKABLE_CHANGESET_CSS_CLASS
         else CHANGESET_CSS_CLASS;
       _bufferLineToDecoration := [];
       _loadingSpinnerIsPending := true;
       _loadingSpinnerDiv := None;
       _loadingSpinnerTimeoutId := Some (next_timeout v) |} ∧
  _editor s0 = editor ∧
  _gutter s0 =
    {| gutter_name := gutterName;
       gutter_destroy_calls := 0;
       gutter_style_width := Some "50px";
       gutter_children := [];
       gutter_click_listener := has_getUrlForRevision blameProvider |} ∧
  timeouts (env s0) = timeouts v ++ [next_timeout v].
Proof.
  unfold constructor. by destruct (has_getUrlForRevision blameProvider).
Qed.

(** A fetch that resolves before the spinner's timeout cancels it: the
    spinner is not in the gutter, and the timeout the constructor scheduled
    does nothing if the window still delivers it. *)
Theorem fast_fetch_never_shows_spinner (newBlame : BlameForEditor) :
  ∃ s', _fetchAndDisplayBlame_resume cls newBlame
          (constructor gutterName editor blameProvider v) = Some s' ∧
        (next_timeout v ∉ timeouts (env s')) ∧
        gutter_children (_gutter s') = [] ∧
        _loadingSpinnerIsPending (this s') = false ∧
        _loadingSpinnerDiv (this s') = None ∧
        handle (TimeoutFires (next_timeout v)) s' = s'.
Proof.
  pose proof constructed_fields as H. simpl in H.
  set (s0 := constructor _ _ _ _) in *. clearbody s0.
  destruct H as (Ht & He & Hg & Hv).
  unfold _fetchAndDisplayBlame_resume. rewrite Ht. simpl.
  destruct (cleanUp_pending s0 (next_timeout v)) as (Hct & Hcg & Hcv);
    [by rewrite Ht ..|].
  destruct (updateBlame_frame cls newBlame (_cleanUpLoadingSpinner s0))
    as (s' & Hrun & Ht' & _ & Hg' & Hv').
  exists s'. split; [done|].
  assert (Hnot : next_timeout v ∉ timeouts (env s')).
  { rewrite Hv', noticed_timeouts, Hcv. apply cleared_not_pending. }
  split; [done|]. split; [by rewrite Hg', Hcg, Hg|].
  rewrite Ht', Hct, Ht. simpl. split; [done|]. split; [done|].
  by rewrite decide_False.
Qed.

(** A slow fetch: the timeout fires first and puts the spinner in the
    gutter; when the fetch resolves the spinner is taken out again. *)
Theorem slow_fetch_shows_then_removes_spinner (newBlame : BlameForEditor) :
  let s1 := handle (TimeoutFires (next_timeout v))
                   (constructor gutterName editor blameProvider v) in
  gutter_children (_gutter s1) = [LOADING_SPINNER_ID] ∧
  _loadingSpinnerDiv (this s1) = Some LOADING_SPINNER_ID ∧
  _loadingSpinnerIsPending (this s1) = false ∧
  ∃ s2, _fetchAndDisplayBlame_resume cls newBlame s1 = Some s2 ∧
        gutter_children (_gutter s2) = [] ∧
        _loadingSpinnerDiv (this s2) = None ∧
        _loadingSpinnerIsPending (this s2) = false.
Proof.
  pose proof constructed_fields as H. simpl in H.
  set (s0 := constructor _ _ _ _) in *. clearbody s0.
  destruct H as (Ht & He & Hg & Hv).
  simpl. rewrite decide_True by (rewrite Hv, elem_of_app; right; by left).
  set (s1 := loadingSpinnerTimeout _).
  assert (H1 : this s1 = set_loadingSpinnerDiv (Some LOADING_SPINNER_ID)
                           (set_loadingSpinnerIsPending false (this s0)) ∧
               gutter_children (_gutter s1) = [LOADING_SPINNER_ID]).
  { unfold s1, loadingSpinnerTimeout. simpl. by rewrite Hg. }
  clearbody s1. destruct H1 as (Ht1 & Hg1). rewrite Ht1, Hg1, Ht. simpl.
  split; [done|]. split; [done|]. split; [done|].
  unfold _fetchAndDisplayBlame_resume. rewrite Ht1, Ht. simpl.
  destruct (cleanUp_visible s1 LOADING_SPINNER_ID) as (Hct & Hcg);
    [by rewrite Ht1, Ht ..|].
  destruct (updateBlame_frame cls newBlame (_cleanUpLoadingSpinner s1))
    as (s2 & Hrun & Ht2 & _ & Hg2 & _).
  exists s2. split; [done|]. split; [by rewrite Hg2; simpl; rewrite Hcg, Hg1|].
  rewrite Ht2, Hct, Ht1, Ht. done.
Qed.

(** Destroying the gutter while the fetch is pending cancels the spinner:
    the timeout the constructor scheduled does nothing afterwards. *)
Theorem destroy_cancels_spinner :
  let s0 := constructor gutterName editor blameProvider v in
  (next_timeout v ∉ timeouts (env (destroy s0))) ∧
  _loadingSpinnerIsPending (this (destroy s0)) = false ∧
  handle (TimeoutFires (next_timeout v)) (destroy s0) = destroy s0.
Proof.
  pose proof constructed_fields as H. simpl in *.
  set (s0 := constructor _ _ _ _) in *. clearbody s0.
  destruct H as (Ht & He & Hg & Hv).
  assert (H : timeouts (env (destroy s0)) =
              filter (λ t, Some t ≠ Some (next_timeout v)) (timeouts (env s0)) ∧
              _loadingSpinnerIsPending (this (destroy s0)) = false).
  { unfold destroy. set (t := if editor_isDestroyed _ then _ else _).
    destruct (destroyMarkers_frame (JSMap.values (lines t)) t) as (-> & _ & -> & _).
    destruct (cleanUp_pending (with_this (set_isDestroyed true) s0) (next_timeout v))
      as (Hct & _ & Hcv); [by simpl; rewrite Ht ..|].
    unfold t. destruct (editor_isDestroyed _); simpl;
      (split; [by rewrite Hcv | by rewrite Hct]). }
  destruct H as (Hts & Hp).
  assert (Hnot : next_timeout v ∉ timeouts (env (destroy s0))).
  { rewrite Hts. apply cleared_not_pending. }
  split; [done|]. split; [done|]. by rewrite decide_False.
Qed.

End Spinner.

(** *** Destroying *)

(** [gutter.destroy()] is called by [destroy()] exactly when the editor is
    not destroyed. *)
Theorem destroy_gutter_guard (s : State) :
  _gutter (destroy s) =
    (if editor_isDestroyed (_editor s)
     then _gutter (_cleanUpLoadingSpinner s)
     else Gutter_destroy (_gutter (_cleanUpLoadingSpinner s))) ∧
  gutter_destroy_calls (_gutter (destroy s)) =
    gutter_destroy_calls (_gutter s) + (if editor_isDestroyed (_editor s) then 0 else 1) ∧
  editor_isDestroyed (_editor (destroy s)) = editor_isDestroyed (_editor s).
Proof.
  unfold destroy. set (t := if editor_isDestroyed _ then _ else _).
  destruct (destroyMarkers_frame (JSMap.values (lines t)) t) as (_ & -> & _ & _ & -> & _).
  destruct (cleanUp_fields (with_this (set_isDestroyed true) s))
    as (_ & _ & _ & _ & _ & _ & He & Hg).
  assert (Hgc : _gutter (_cleanUpLoadingSpinner (with_this (set_isDestroyed true) s)) =
                _gutter (_cleanUpLoadingSpinner s)).
  { destruct s as [[? ? ? pending div ?] ? ? ?]. unfold _cleanUpLoadingSpinner.
    by destruct pending, div. }
  unfold t. rewrite He. simpl.
  destruct (editor_isDestroyed (_editor s)) eqn:Hed; simpl; rewrite Hgc;
    (split; [done|]); rewrite <- Hgc, Hg; simpl; (split; [lia|]);
    rewrite He; exact Hed.
Qed.

Lemma destroy_listener (s : State) :
  editor_isDestroyed (_editor s) = false →
  gutter_click_listener (_gutter (destroy s)) = false.
Proof.
  intros Hed. unfold destroy. set (t := if editor_isDestroyed _ then _ else _).
  destruct (destroyMarkers_frame (JSMap.values (lines t)) t) as (_ & -> & _).
  destruct (cleanUp_fields (with_this (set_isDestroyed true) s))
    as (_ & _ & _ & _ & _ & _ & He & _).
  unfold t. rewrite He. simpl. by rewrite Hed.
Qed.

(** Once the gutter of a live editor is destroyed, a click does nothing:
    the click listener went with the gutter. *)
Theorem no_click_after_destroy (s : State) (e : MouseEvent) (url : option string) :
  editor_isDestroyed (_editor s) = false →
  handle (Click e url) (destroy s) = destroy s.
Proof.
  intros Hed. simpl. by rewrite (destroy_listener s Hed).
Qed.

Lemma no_click_after_destroy_witness :
  handle (Click changeset_click None) (destroy fetching) = destroy fetching.
Proof. exact (no_click_after_destroy fetching changeset_click None eq_refl). Defined.

(** *** What every state of a gutter satisfies *)


Lemma wf_ext (s s' : State) :
  lines s' = lines s → _editor s' = _editor s → wf s → wf s'.
Proof. intros Hl He H. unfold wf, marker_of in *. by rewrite Hl, He. Qed.









(** *** Reconciling the same snapshot again *)

Lemma setLines_present cls longestBlame es :
  Forall (λ e : nat * BlameInfo, (blameLength e.2 ≤ longestBlame)%Z) es →
  ∀ s, (∀ l, l ∈ JSMap.keys es → is_Some (JSMap.get l (lines s))) →
       ∃ s', setLines cls longestBlame es s = Some s' ∧
             lines s' = lines s ∧ marks s' = marks s ∧
             length (decs s') = length (decs s) ∧
             ∀ d, marker_of s' d = marker_of s d.
Proof.
  induction 1 as [|[l b] es Hb _ IH]; intros s Hin.
  - by exists s.
  - destruct (Hin l) as [d Hd]; [by left|].
    destruct (createGutterItem_fits b longestBlame s Hb) as [item Hitem].
    rewrite setLines_cons, (setBlameLine_present cls _ _ _ _ _ _ Hitem Hd). simpl.
    destruct (IH (with_editor (setProperties d (properties_of cls s item)) s))
      as (s' & Hrun & Hl & Hm & Hn & Hmk).
    { intros l' Hl'. apply Hin. by right. }
    exists s'. split; [done|]. split; [done|]. split; [done|].
    split; [by rewrite Hn; simpl; rewrite length_alter|].
    intros d'. by rewrite Hmk, marker_of_setProperties.
Qed.

(** Reconciling to the snapshot the gutter shows already makes no marker
    and no decoration, destroys no marker and leaves the map as it is. *)
Theorem reconcile_again (cls : string) (s0 s1 : State) (S : BlameForEditor) :
  wf s0 → _updateBlame cls S s0 = Some s1 →
  ∃ s2, _updateBlame cls S s1 = Some s2 ∧
        lines s2 = lines s1 ∧ marks s2 = marks s1 ∧
        length (decs s2) = length (decs s1) ∧
        (∀ d, marker_of s2 d = marker_of s1 d).
Proof.
  intros Hwf Hrun. destruct (updateBlame_pass cls S s0 Hwf) as (s1' & Hrun' & P).
  assert (s1' = s1) as -> by congruence.
  assert (Hn : this (noticed S s1) = this s1 ∧ _editor (noticed S s1) = _editor s1).
  { unfold noticed. by case_decide. }
  destruct Hn as (Hnt & Hne).
  destruct (setLines_present cls _ S (snapshot_fits S) (noticed S s1))
    as (s2 & Hs2 & Hl & Hm & Hn & Hmk).
  { intros l Hl. rewrite Hnt. by apply JSMapFacts.elem_of_keys, (pass_keys _ _ _ _ P). }
  assert (Hout : outdated S s1 = []).
  { apply elem_of_nil_inv. intros l [Hin Hout]%elem_of_outdated.
    by apply Hout, (pass_keys _ _ _ _ P), JSMapFacts.elem_of_keys. }
  eexists. split; [by apply updateBlame_unfold|]. rewrite Hout. simpl.
  rewrite Hl, Hm, Hn, Hnt, Hne. repeat split.
  intros d. etrans; [exact (Hmk d)|]. unfold marker_of. by rewrite Hne.
Qed.

Lemma reconcile_again_witness :
  wf fetching ∧
  ∃ s1 s2, _updateBlame "blame-decoration" (alice_bob 0 1) fetching = Some s1 ∧
           _updateBlame "blame-decoration" (alice_bob 0 1) s1 = Some s2 ∧
           lines s2 = lines s1 ∧ marks s2 = marks s1.
Proof.
  split; [exact wf_fetching|].
  eexists.
  destruct (reconcile_again "blame-decoration" fetching _ (alice_bob 0 1)
              wf_fetching eq_refl) as (s2 & H2 & Hl & Hm & _).
  exists s2. split; [reflexivity|]. split; [exact H2|]. split; [exact Hl | exact Hm].
Defined.

(** *** The first rendering *)

(** When the fetch of a new gutter resolves, every line of the snapshot
    has a decoration on a new marker at that line, not destroyed, whose
    properties are of type [gutter], name the gutter and the decoration
    class and carry the item built for an entry of that line. *)
Theorem first_render (cls gutterName : string) (editor : Editor)
    (blameProvider : BlameProvider) (v : Env) (newBlame : BlameForEditor) (l : nat) :
  l ∈ JSMap.keys newBlame →
  let s0 := constructor gutterName editor blameProvider v in
  ∃ s' d mk b item,
    _fetchAndDisplayBlame_resume cls newBlame s0 = Some s' ∧
    JSMap.get l (lines s') = Some d ∧
    marker_of s' d = Some mk ∧ length (markers editor) ≤ mk ∧
    marks s' !! mk = Some {| marker_line := l; marker_destroy_calls := 0 |} ∧
    (l, b) ∈ newBlame ∧
    _createGutterItem b (longestBlame_of newBlame) s0 = Some item ∧
    properties_at s' d =
      Some {| dp_type := "gutter"; dp_gutterName := gutterName;
              dp_class := cls; dp_item := item |}.
Proof.
  intros Hl. pose proof (constructed_fields gutterName editor blameProvider v) as H.
  pose proof (wf_constructor gutterName editor blameProvider v) as Hwf.
  simpl in *. set (s0 := constructor _ _ _ _) in *. clearbody s0.
  destruct H as (Ht & He & Hg & Hv).
  unfold _fetchAndDisplayBlame_resume. rewrite Ht. simpl.
  destruct (cleanUp_fields s0) as (_ & Hcc & Hcl & _ & _ & _ & Hce & _).
  destruct (cleanUp_pending s0 (next_timeout v)) as (Hct & Hcg & _); [by rewrite Ht ..|].
  set (c := _cleanUpLoadingSpinner s0) in *. clearbody c.
  assert (Hn : this (noticed newBlame c) = this c ∧
               _editor (noticed newBlame c) = _editor c ∧
               _gutter (noticed newBlame c) = _gutter c).
  { unfold noticed. by case_decide. }
  destruct Hn as (Hnt & Hne & Hng).
  assert (Hwfn : wf (noticed newBlame c)).
  { apply (wf_ext s0); [by rewrite Hnt, Hcl | by rewrite Hne, Hce | done]. }
  destruct (setLines_inv cls (longestBlame_of newBlame) _ Hwfn newBlame
              (snapshot_fits newBlame)) as (s1 & Hrun & Inv).
  assert (Hout : outdated newBlame c = []).
  { apply elem_of_nil_inv. intros l' [[d Hd] _]%elem_of_outdated.
    rewrite Hcl, Ht in Hd. done. }
  assert (Hnone : JSMap.get l (lines (noticed newBlame c)) = None)
    by by rewrite Hnt, Hcl, Ht.
  destruct (set_new _ _ _ _ _ Inv l Hnone Hl) as (d & mk & Hd & _ & Hmk & Hlt & Hm).
  destruct (set_props _ _ _ _ _ Inv l Hl) as (d' & b & item & Hd' & Hb & Hit & Hp).
  assert (d' = d) as -> by congruence.
  exists (_updateGutterWidthToCharacterLength (longestBlame_of newBlame) s1),
    d, mk, b, item.
  split; [by rewrite (updateBlame_unfold cls newBlame c s1 Hrun), Hout|].
  split; [done|]. split; [done|]. split; [by rewrite Hne, Hce, He in Hlt|].
  split; [done|]. split; [done|]. split.
  - rewrite <- Hit. unfold _createGutterItem. by rewrite Hnt, Hcc.
  - etrans; [exact Hp|]. unfold properties_of. by rewrite Hng, Hcg, Hg.
Qed.

Lemma first_render_witness :
  0 ∈ JSMap.keys (alice_bob 0 1) ∧
  ∃ s' d mk,
    rendered = Some s' ∧ JSMap.get 0 (lines s') = Some d ∧
    marker_of s' d = Some mk ∧
    marks s' !! mk = Some {| marker_line := 0; marker_destroy_calls := 0 |}.
Proof.
  assert (Hin : 0 ∈ JSMap.keys (alice_bob 0 1)) by left.
  split; [exact Hin|].
  destruct (first_render "blame-decoration" "nuclide-blame" editor0
              {| has_getUrlForRevision := true |} env0 (alice_bob 0 1) 0 Hin)
    as (s' & d & mk & _ & _ & H1 & H2 & H3 & _ & H4 & _).
  exists s', d, mk. split; [exact H1|]. split; [exact H2|]. split; [exact H3 | exact H4].
Defined.

End BlameGutterMore.

(** * More on the diagnostics provider base *)

Module DiagnosticsProviderBaseMore.
Import DiagnosticsProviderBase DiagnosticsProviderBaseSpec.

(** The calls a client makes on an instance. A registration that throws
    leaves the instance as it was. *)
Inductive Call :=
| SetRunOnTheFly (runOnTheFly : bool)
| Dispose
| PublishMessageUpdate (update : string)
| PublishMessageInvalidation (message : string)
| OnMessageUpdate (callback : nat)
| OnMessageInvalidation (callback : nat).

Definition call (c : Call) (s : State) : State :=
  match c with
  | SetRunOnTheFly runOnTheFly => setRunOnTheFly runOnTheFly s
  | Dispose => dispose s
  | PublishMessageUpdate update => publishMessageUpdate update s
  | PublishMessageInvalidation message => publishMessageInvalidation message s
  | OnMessageUpdate callback =>
      match onMessageUpdate callback s with
      | Some (_, s') => s'
      | None => s
      end
  | OnMessageInvalidation callback =>
      match onMessageInvalidation callback s with
      | Some (_, s') => s'
      | None => s
      end
  end.

Definition calls (cs : list Call) (s : State) : State := foldl (λ s c, call c s) s cs.

Definition is_dispose (c : Call) : bool :=
  match c with Dispose => true | _ => false end.

Definition update_callbacks (cs : list Call) : list nat :=
  omap (λ c, match c with OnMessageUpdate cb => Some cb | _ => None end) cs.

Definition invalidation_callbacks (cs : list Call) : list nat :=
  omap (λ c, match c with OnMessageInvalidation cb => Some cb | _ => None end) cs.

(** *** Publishing *)

Lemma emit_invocations (eventName message : string) (s : State) :
  this (emit eventName message s) = this s ∧
  _textEventDispatcher (emit eventName message s) = _textEventDispatcher s ∧
  invocations (emit eventName message s) =
    invocations s ++
    ((λ h, HandlerCall h message) <$> handlers eventName (_emitter (this s))).
Proof.
  unfold emit. generalize (handlers eventName (_emitter (this s))). intros hs.
  revert s. induction hs as [|h hs IH]; intros s; simpl.
  - by rewrite app_nil_r.
  - destruct (IH (invoke (HandlerCall h message) s)) as (-> & -> & ->).
    simpl. by rewrite <- app_assoc.
Qed.

Lemma subscribe_this (b : bool) (s : State) :
  this (_subscribeToTextEditorEvent b s) =
    set_currentEventSubscription
      (Some (subscriptions_made (_textEventDispatcher s))) (this s) ∧
  invocations (_subscribeToTextEditorEvent b s) = invocations s.
Proof.
  unfold _subscribeToTextEditorEvent, _disposeEventSubscription.
  destruct s as [[] ? ?]. simpl.
  destruct _currentEventSubscription0, b, _allGrammarScopes0; done.
Qed.

Lemma handlers_on_other (eventName other : string) (handler : nat) (e e' : Emitter)
    (d : Disposable) :
  Emitter_on eventName handler e = Some (d, e') → eventName ≠ other →
  handlers other e' = handlers other e.
Proof.
  unfold Emitter_on. destruct (disposed e); [done|]. intros [= _ <-] Hne.
  unfold handlers. simpl. by rewrite lookup_insert_ne.
Qed.

(** What the emitter holds after a call. *)
Lemma call_emitter (c : Call) (s : State) :
  let e := _emitter (this s) in
  let e' := _emitter (this (call c s)) in
  match c with
  | Dispose => disposed e' = true ∧ ∀ ev, handlers ev e' = []
  | OnMessageUpdate cb =>
      disposed e' = disposed e ∧
      handlers UPDATE_EVENT e' =
        handlers UPDATE_EVENT e ++ (if disposed e then [] else [cb]) ∧
      handlers INVALIDATE_EVENT e' = handlers INVALIDATE_EVENT e
  | OnMessageInvalidation cb =>
      disposed e' = disposed e ∧
      handlers UPDATE_EVENT e' = handlers UPDATE_EVENT e ∧
      handlers INVALIDATE_EVENT e' =
        handlers INVALIDATE_EVENT e ++ (if disposed e then [] else [cb])
  | _ => e' = e
  end.
Proof.
  destruct c as [b| |m|m|cb|cb]; simpl.
  - unfold setRunOnTheFly. destruct (subscribe_this b s) as [-> _]. done.
  - unfold dispose, _disposeEventSubscription. simpl.
    destruct (_currentEventSubscription (this s)); by split.
  - unfold publishMessageUpdate. by destruct (emit_invocations UPDATE_EVENT m s) as [-> _].
  - unfold publishMessageInvalidation.
    by destruct (emit_invocations INVALIDATE_EVENT m s) as [-> _].
  - unfold onMessageUpdate.
    destruct (disposed (_emitter (this s))) eqn:Hd.
    + unfold Emitter_on. rewrite Hd. simpl. by rewrite Hd, app_nil_r.
    + destruct (handlers_after_on UPDATE_EVENT cb _ Hd) as (dp & e' & Hon & Hd' & Hh).
      rewrite Hon. simpl. split; [done|]. split; [done|].
      by apply (handlers_on_other UPDATE_EVENT INVALIDATE_EVENT cb _ _ dp).
  - unfold onMessageInvalidation.
    destruct (disposed (_emitter (this s))) eqn:Hd.
    + unfold Emitter_on. rewrite Hd. simpl. by rewrite Hd, app_nil_r.
    + destruct (handlers_after_on INVALIDATE_EVENT cb _ Hd) as (dp & e' & Hon & Hd' & Hh).
      rewrite Hon. simpl. split; [done|]. split; [|done].
      by apply (handlers_on_other INVALIDATE_EVENT UPDATE_EVENT cb _ _ dp).
Qed.

Lemma handlers_after_calls (options : Options) (d : list DispatcherEvent)
    (cs : list Call) :
  let e := _emitter (this (calls cs (constructor options d))) in
  disposed e = existsb is_dispose cs ∧
  handlers UPDATE_EVENT e = (if existsb is_dispose cs then [] else update_callbacks cs) ∧
  handlers INVALIDATE_EVENT e =
    (if existsb is_dispose cs then [] else invalidation_callbacks cs).
Proof.
  simpl. induction cs as [|c cs IH] using rev_ind.
  - unfold calls. simpl. unfold constructor.
    by destruct (subscribe_this (shouldRunOnTheFly options)
      {| this := {| _emitter := Emitter_new;
                    _disposables_disposed := false;
                    _textEventCallback := callbackOrNoop (onTextEditorEvent options);
                    _newUpdateSubscriberCallback :=
                      callbackOrNoop (onNewUpdateSubscriber options);
                    _newInvalidateSubscriberCallback :=
                      callbackOrNoop (onNewInvalidateSubscriber options);
                    _grammarScopes := list_to_set (default [] (grammarScopes options));
                    _allGrammarScopes := enableForAllGrammars options;
                    _currentEventSubscription := None |};
         _textEventDispatcher := d;
         invocations := [] |}) as [-> _].
  - unfold calls in *. rewrite foldl_app. cbn [foldl].
    set (s := foldl _ _ cs) in *. destruct IH as (Hd & Hu & Hi).
    pose proof (call_emitter c s) as Hc. cbv zeta in Hc.
    set (s' := call c s) in *. clearbody s'.
    unfold update_callbacks, invalidation_callbacks.
    rewrite existsb_app, !omap_app.
    fold (update_callbacks cs) (invalidation_callbacks cs).
    destruct c as [b| |m|m|cb|cb]; simpl.
    + rewrite Hc, Hd, Hu, Hi, orb_false_r, !app_nil_r. done.
    + destruct Hc as (-> & Hh). rewrite !Hh, orb_true_r. done.
    + rewrite Hc, Hd, Hu, Hi, orb_false_r, !app_nil_r. done.
    + rewrite Hc, Hd, Hu, Hi, orb_false_r, !app_nil_r. done.
    + destruct Hc as (-> & -> & ->). rewrite Hd, Hu, Hi, orb_false_r, app_nil_r.
      by destruct (existsb is_dispose cs).
    + destruct Hc as (-> & -> & ->). rewrite Hd, Hu, Hi, orb_false_r, app_nil_r.
      by destruct (existsb is_dispose cs).
Qed.

(** Publishing reaches the subscribers of its own channel, in the order
    they registered, and nobody else: after any calls with no [dispose()]
    among them, [publishMessageUpdate] calls the callbacks given to
    [onMessageUpdate], each with the update, and [publishMessageInvalidation]
    those given to [onMessageInvalidation]; after a [dispose()] nobody is
    called. Publishing changes nothing else. *)
Theorem publish_reaches_subscribers (options : Options) (d : list DispatcherEvent)
    (cs : list Call) (message : string) :
  let s := calls cs (constructor options d) in
  invocations (publishMessageUpdate message s) =
    invocations s ++
    ((λ h, HandlerCall h message) <$>
       (if existsb is_dispose cs then [] else update_callbacks cs)) ∧
  invocations (publishMessageInvalidation message s) =
    invocations s ++
    ((λ h, HandlerCall h message) <$>
       (if existsb is_dispose cs then [] else invalidation_callbacks cs)) ∧
  this (publishMessageUpdate message s) = this s ∧
  this (publishMessageInvalidation message s) = this s ∧
  _textEventDispatcher (publishMessageUpdate message s) = _textEventDispatcher s ∧
  _textEventDispatcher (publishMessageInvalidation message s) = _textEventDispatcher s.
Proof.
  simpl. destruct (handlers_after_calls options d cs) as (_ & Hu & Hi). simpl in *.
  unfold publishMessageUpdate, publishMessageInvalidation.
  destruct (emit_invocations UPDATE_EVENT message (calls cs (constructor options d)))
    as (-> & -> & ->).
  destruct (emit_invocations INVALIDATE_EVENT message (calls cs (constructor options d)))
    as (-> & -> & ->).
  by rewrite Hu, Hi.
Qed.

(** After [dispose()], publishing calls nobody and changes nothing, and a
    registration throws before the hook is called. *)
Theorem after_dispose (s : State) (message : string) (callback : nat) :
  publishMessageUpdate message (dispose s) = dispose s ∧
  publishMessageInvalidation message (dispose s) = dispose s ∧
  onMessageUpdate callback (dispose s) = None ∧
  onMessageInvalidation callback (dispose s) = None ∧
  _currentEventSubscription (this (dispose s)) = None.
Proof.
  assert (He : _emitter (this (dispose s)) = Emitter_dispose (_emitter (this s)) ∧
               _currentEventSubscription (this (dispose s)) = None).
  { destruct s as [[? ? ? ? ? ? ? current] ? ?].
    unfold dispose, _disposeEventSubscription. by destruct current. }
  destruct He as (He & Hc).
  unfold publishMessageUpdate, publishMessageInvalidation, emit,
    onMessageUpdate, onMessageInvalidation.
  rewrite He. unfold handlers, Emitter_on. simpl. rewrite !lookup_empty. done.
Qed.

(** *** The configuration and the mode *)

(** What the constructor keeps of the options. *)
Definition config (t : Fields)
  : Fn * Fn * Fn * gset string * bool :=
  (_textEventCallback t, _newUpdateSubscriberCallback t,
   _newInvalidateSubscriberCallback t, _grammarScopes t, _allGrammarScopes t).

(** The subscription the options ask for in a mode. *)
Definition wanted (options : Options) (runOnTheFly : bool) : Subscription :=
  let callback := callbackOrNoop (onTextEditorEvent options) in
  let scopes : gset string := list_to_set (default [] (grammarScopes options)) in
  match runOnTheFly, enableForAllGrammars options with
  | true, true => onAnyFileChange callback
  | true, false => onFileChange scopes callback
  | false, true => onAnyFileSave callback
  | false, false => onFileSave scopes callback
  end.

Lemma call_this (c : Call) (s : State) :
  config (this (call c s)) = config (this s) ∧
  (_currentEventSubscription (this (call c s)) = _currentEventSubscription (this s) ∧
   _textEventDispatcher (call c s) = _textEventDispatcher s
   ∨ (∃ b, c = SetRunOnTheFly b) ∨ c = Dispose).
Proof.
  destruct c as [b| |m|m|cb|cb]; simpl.
  - unfold setRunOnTheFly. destruct (subscribe_this b s) as [-> _].
    split; [done|]. right; left. by exists b.
  - split; [|by right; right]. destruct s as [[? ? ? ? ? ? ? current] ? ?].
    unfold dispose, _disposeEventSubscription. by destruct current.
  - unfold publishMessageUpdate.
    destruct (emit_invocations UPDATE_EVENT m s) as (-> & -> & _). split; [done|by left].
  - unfold publishMessageInvalidation.
    destruct (emit_invocations INVALIDATE_EVENT m s) as (-> & -> & _).
    split; [done|by left].
  - unfold onMessageUpdate, Emitter_on.
    destruct (disposed (_emitter (this s))); simpl; (split; [done|by left]).
  - unfold onMessageInvalidation, Emitter_on.
    destruct (disposed (_emitter (this s))); simpl; (split; [done|by left]).
Qed.

(** The instance when the constructor has set its fields and is about to
    subscribe. *)
Definition fields_set (options : Options) (d : list DispatcherEvent) : State :=
  {| this := {| _emitter := Emitter_new;
                _disposables_disposed := false;
                _textEventCallback := callbackOrNoop (onTextEditorEvent options);
                _newUpdateSubscriberCallback :=
                  callbackOrNoop (onNewUpdateSubscriber options);
                _newInvalidateSubscriberCallback :=
                  callbackOrNoop (onNewInvalidateSubscriber options);
                _grammarScopes := list_to_set (default [] (grammarScopes options));
                _allGrammarScopes := enableForAllGrammars options;
                _currentEventSubscription := None |};
     _textEventDispatcher := d;
     invocations := [] |}.

Lemma constructor_unfold (options : Options) (d : list DispatcherEvent) :
  constructor options d =
    _subscribeToTextEditorEvent (shouldRunOnTheFly options) (fields_set options d).
Proof. reflexivity. Qed.

Lemma constructor_config (options : Options) (d : list DispatcherEvent) :
  config (this (constructor options d)) =
    (callbackOrNoop (onTextEditorEvent options),
     callbackOrNoop (onNewUpdateSubscriber options),
     callbackOrNoop (onNewInvalidateSubscriber options),
     list_to_set (default [] (grammarScopes options)),
     enableForAllGrammars options).
Proof.
  rewrite constructor_unfold.
  by destruct (subscribe_this (shouldRunOnTheFly options) (fields_set options d))
    as [-> _].
Qed.

Lemma calls_config (options : Options) (d : list DispatcherEvent) (cs : list Call) :
  config (this (calls cs (constructor options d))) = config (this (constructor options d)).
Proof.
  induction cs as [|c cs IH] using rev_ind; [done|].
  unfold calls in *. rewrite foldl_app. cbn [foldl].
  by destruct (call_this c (foldl (λ s c, call c s) (constructor options d) cs)) as [-> _].
Qed.

Lemma subscribe_wanted (b : bool) (s : State) :
  ∃ rest,
    _textEventDispatcher (_subscribeToTextEditorEvent b s) =
      Subscribed
        (match b, _allGrammarScopes (this s) with
         | true, true => onAnyFileChange (_textEventCallback (this s))
         | true, false => onFileChange (_grammarScopes (this s)) (_textEventCallback (this s))
         | false, true => onAnyFileSave (_textEventCallback (this s))
         | false, false => onFileSave (_grammarScopes (this s)) (_textEventCallback (this s))
         end) :: rest.
Proof.
  destruct s as [[? ? ? ? ? ? all current] ? ?].
  unfold _subscribeToTextEditorEvent, _disposeEventSubscription.
  destruct current, b, all; simpl; by eexists.
Qed.

(** The options fix the callbacks, the grammar scopes and the all-grammars
    flag for good: no call changes them. So whatever was called before,
    [setRunOnTheFly] subscribes to changes when on the fly and to saves
    otherwise, for all grammars when the flag is set and for the scopes of
    the options otherwise, with the text event callback of the options;
    and the constructor does so for [shouldRunOnTheFly]. *)
Theorem mode_follows_options (options : Options) (d : list DispatcherEvent)
    (cs : list Call) (runOnTheFly : bool) :
  let s := calls cs (constructor options d) in
  config (this s) =
    (callbackOrNoop (onTextEditorEvent options),
     callbackOrNoop (onNewUpdateSubscriber options),
     callbackOrNoop (onNewInvalidateSubscriber options),
     list_to_set (default [] (grammarScopes options)),
     enableForAllGrammars options) ∧
  (∀ scope, scope ∈ getGrammarScopes s ↔ scope ∈ default [] (grammarScopes options)) ∧
  (∃ rest, _textEventDispatcher (setRunOnTheFly runOnTheFly s) =
             Subscribed (wanted options runOnTheFly) :: rest) ∧
  (∃ rest, _textEventDispatcher (constructor options d) =
             Subscribed (wanted options (shouldRunOnTheFly options)) :: rest).
Proof.
  simpl. pose proof (calls_config options d cs) as Hc.
  rewrite constructor_config in Hc. split; [done|].
  unfold config in Hc. injection Hc as Ht _ _ Hs Ha.
  split; [|split].
  - intros scope. unfold getGrammarScopes. rewrite Hs. apply elem_of_list_to_set.
  - destruct (subscribe_wanted runOnTheFly (calls cs (constructor options d)))
      as [rest Hr].
    exists rest. unfold setRunOnTheFly. rewrite Hr, Ht, Hs, Ha. done.
  - rewrite constructor_unfold.
    destruct (subscribe_wanted (shouldRunOnTheFly options) (fields_set options d))
      as [rest Hr].
    exists rest. by rewrite Hr.
Qed.

(** *** Subscriptions over any calls *)

(** No [dispose()] was recorded for a handle the dispatcher has not given out. *)
Definition fresh (d : list DispatcherEvent) : Prop :=
  ∀ h, subscriptions_made d ≤ h → disposals h d = 0.

Definition lifecycle_inv (base : nat) (s : State) : Prop :=
  let d := _textEventDispatcher s in
  no_overlap base d ∧ base ≤ subscriptions_made d ∧
  (∀ h, base ≤ h → disposals h d ≤ 1) ∧
  fresh d ∧
  match _currentEventSubscription (this s) with
  | Some h => own_active base d = [h] ∧ disposals h d = 0
  | None => own_active base d = []
  end.

Lemma lifecycle_inv_ext (base : nat) (s s' : State) :
  _currentEventSubscription (this s') = _currentEventSubscription (this s) →
  _textEventDispatcher s' = _textEventDispatcher s →
  lifecycle_inv base s → lifecycle_inv base s'.
Proof. unfold lifecycle_inv. by intros -> ->. Qed.

Lemma lifecycle_disposeEventSubscription (base : nat) (s : State) :
  lifecycle_inv base s →
  lifecycle_inv base (_disposeEventSubscription s) ∧
  _currentEventSubscription (this (_disposeEventSubscription s)) = None.
Proof.
  intros (Hn & Hb & Hle & Hf & Hc). unfold _disposeEventSubscription.
  destruct (_currentEventSubscription (this s)) as [h|] eqn:E.
  - destruct Hc as (Ha & Hd). split; [|done].
    assert (Hlt : h < subscriptions_made (_textEventDispatcher s)).
    { assert (Hin : h ∈ own_active base (_textEventDispatcher s))
        by (rewrite Ha; by left).
      unfold own_active in Hin. apply list_elem_of_filter in Hin as [_ Hin].
      pose proof (active_lt (_textEventDispatcher s)) as HF.
      rewrite Forall_forall in HF. by apply HF. }
    unfold lifecycle_inv. simpl. split; [done|]. split; [done|]. split; [|split].
    + intros h' Hh'. destruct (decide (h = h')) as [<-|]; [lia|].
      specialize (Hle h' Hh'). lia.
    + intros h' Hh'. simpl in *. rewrite decide_False by lia. by apply Hf.
    + by apply own_active_disposed.
  - split; [|done]. unfold lifecycle_inv. by rewrite E.
Qed.

Lemma lifecycle_subscribe (base : nat) (b : bool) (s : State) :
  lifecycle_inv base s → lifecycle_inv base (_subscribeToTextEditorEvent b s).
Proof.
  intros H. apply lifecycle_disposeEventSubscription in H as [(Hn & Hb & Hle & Hf & Hc) E].
  assert (Eq : _subscribeToTextEditorEvent b s =
               _subscribeToTextEditorEvent b (_disposeEventSubscription s)).
  { unfold _subscribeToTextEditorEvent. by rewrite disposeEventSubscription_twice. }
  rewrite Eq. set (s1 := _disposeEventSubscription s) in *. clearbody s1.
  rewrite E in Hc.
  unfold _subscribeToTextEditorEvent, _disposeEventSubscription. rewrite E.
  unfold lifecycle_inv, own_active, fresh in *.
  destruct b, (_allGrammarScopes (this s1)); simpl;
    (split; [done|]; split; [lia|]; split; [done|];
     split; [intros h Hh; apply Hf; lia|];
     split; [by rewrite filter_cons_True, Hc by done | apply Hf; lia]).
Qed.

Lemma lifecycle_call (base : nat) (c : Call) (s : State) :
  lifecycle_inv base s → lifecycle_inv base (call c s).
Proof.
  intros H. destruct (call_this c s) as [_ [[Hc Hd]|[[b ->]| ->]]].
  - by apply (lifecycle_inv_ext base s).
  - by apply lifecycle_subscribe.
  - simpl. unfold dispose. apply lifecycle_disposeEventSubscription.
    by apply (lifecycle_inv_ext base s).
Qed.

(** Whatever a client calls, in whatever order, on an instance built on a
    dispatcher with no stray disposals: the instance holds at most one
    active subscription, the one in [_currentEventSubscription]; it never
    subscribes while it holds one; and it never disposes of a subscription
    twice. *)
Theorem subscriptions_over_any_calls (options : Options) (d0 : list DispatcherEvent)
    (cs : list Call) :
  fresh d0 →
  let s := calls cs (constructor options d0) in
  let base := subscriptions_made d0 in
  own_active base (_textEventDispatcher s) =
    match _currentEventSubscription (this s) with Some h => [h] | None => [] end ∧
  no_overlap base (_textEventDispatcher s) ∧
  (∀ h, base ≤ h → disposals h (_textEventDispatcher s) ≤ 1).
Proof.
  intros Hf. simpl.
  assert (H : lifecycle_inv (subscriptions_made d0) (calls cs (constructor options d0))).
  { induction cs as [|c cs IH] using rev_ind.
    - unfold calls. simpl. rewrite constructor_unfold. apply lifecycle_subscribe.
      unfold lifecycle_inv. simpl. split; [by apply no_overlap_before|].
      split; [done|]. split; [intros h Hh; rewrite Hf by done; lia|]. split; [done|].
      by apply own_active_none.
    - unfold calls in *. rewrite foldl_app. cbn [foldl]. by apply lifecycle_call. }
  destruct H as (Hn & _ & Hle & _ & Hc). split; [|by split].
  destruct (_currentEventSubscription _); [apply Hc | done].
Qed.

Lemma subscriptions_over_any_calls_witness :
  fresh [] ∧
  let s := calls [SetRunOnTheFly false; Dispose; Dispose; SetRunOnTheFly true] provider0 in
  own_active 0 (_textEventDispatcher s) = [2] ∧
  disposals 0 (_textEventDispatcher s) ≤ 1 ∧
  disposals 1 (_textEventDispatcher s) ≤ 1.
Proof.
  assert (Hf : fresh []) by (intros h _; reflexivity).
  split; [exact Hf|].
  destruct (subscriptions_over_any_calls options0 []
              [SetRunOnTheFly false; Dispose; Dispose; SetRunOnTheFly true] Hf)
    as (H1 & _ & H2).
  split; [exact H1|]. split; [apply H2 | apply H2]; apply Nat.le_0_l.
Defined.

End DiagnosticsProviderBaseMore.
